(** * 7-Minute Contract Review: the review session of [src/App.tsx]

    A shallow embedding of the [App] component: the step catalogue, the
    session state held in its [useState] cells, the event handlers, the two
    [useEffect] hooks with their dependency arrays, and [generateReport].

    - A JavaScript string is the list of its UTF-16 code units.
    - [FindingsMap] (an object indexed by step position) is a [gmap nat].
    - One user event runs its handler, then React re-renders and runs the
      effects whose dependencies changed, until no state update is pending.
      Events are handled one at a time: the renders and effects an event
      causes are over before the next click or interval tick arrives. *)

From Stdlib Require Import ZArith NArith Lia Ascii DecimalString DecimalNat.
From stdpp Require Import base option list strings gmap.

(** ** JavaScript strings *)

Abbreviation jsstring := (list N).

(** The code units of an ASCII literal of the source. *)
Definition lit (s : string) : jsstring :=
  (λ c, N_of_ascii c) <$> String.list_ascii_of_string s.

(** The escape [\n]. *)
Definition nl : jsstring := [10%N].

(** [WhiteSpace] and [LineTerminator] code units, the ones
    [String.prototype.trim] strips. *)
Definition isWhiteSpace (c : N) : bool :=
  ((9 <=? c) && (c <=? 13) || (c =? 32) || (c =? 160) || (c =? 5760)
   || (8192 <=? c) && (c <=? 8202) || (c =? 8232) || (c =? 8233)
   || (c =? 8239) || (c =? 8287) || (c =? 12288) || (c =? 65279))%N.

Fixpoint trimStart (s : jsstring) : jsstring :=
  match s with
  | c :: s' => if isWhiteSpace c then trimStart s' else s
  | [] => []
  end.

Definition trimEnd (s : jsstring) : jsstring := reverse (trimStart (reverse s)).

Definition trim (s : jsstring) : jsstring := trimEnd (trimStart s).

(** [String.prototype.toUpperCase] on the ASCII letters, which is all the
    catalogue's titles contain; other code units are left as they are. *)
Definition toUpperCase (s : jsstring) : jsstring :=
  (λ c, if (97 <=? c) && (c <=? 122) then c - 32 else c)%N <$> s.

(** Template interpolation of a non-negative integer. *)
Definition numberToString (n : nat) : jsstring :=
  lit (NilEmpty.string_of_uint (Nat.to_uint n)).

(** ** Data model ([types.ts]) *)

(** The [icon] field is a rendered glyph with no behaviour and is left out. *)
Record StepDefinition := {
  id : nat;
  title : jsstring;
  duration : Z;
  description : jsstring;
  checklist : list jsstring
}.

Record FindingData := { checked : list jsstring; notes : jsstring }.

#[global] Instance FindingData_eq_dec : EqDecision FindingData.
Proof. solve_decision. Defined.

(** ** The step catalogue *)

(** The six literals of the [steps] array, named after their titles. *)
Definition controlClauses : StepDefinition :=
  {| id := 1;
   title := lit "Control Clauses";
   duration := 60;
   description := lit "Identify the 3 clauses that decide who wins. If these are vague or one-sided, nothing else matters.";
   checklist := [
     lit "Term: Is the duration clear?";
     lit "Termination: Can we get out? At what cost?";
     lit "Liability: Is it capped? Are we exposed?" ] |}.

Definition moneyObligations : StepDefinition :=
  {| id := 2;
   title := lit "Money, Obligations & Timelines";
   duration := 120;
   description := lit "90% of disputes come from these 5 things. Check payment and performance strictly.";
   checklist := [
     lit "Payment Amount: Is the math exact?";
     lit "Payment Schedule: When is it due?";
     lit "Penalties: Are there late fees or interest?";
     lit "Performance Obligations: What MUST be done?";
     lit "Deadlines: Are dates hard or soft?" ] |}.

Definition definitions : StepDefinition :=
  {| id := 3;
   title := lit "Definitions";
   duration := 60;
   description := lit "Undefined terms = loopholes. Over-defined terms = traps.";
   checklist := [
     lit "Check for 'Shall' vs 'May' misuse";
     lit "Scan for ambiguous words (e.g., 'reasonable')";
     lit "Find hidden obligations buried in definitions" ] |}.

Definition indemnityConfidentiality : StepDefinition :=
  {| id := 4;
   title := lit "Indemnity + Confidentiality";
   duration := 60;
   description := lit "The most weaponized clauses. If unlimited, the client is at high risk.";
   checklist := [
     lit "Indemnity: Who indemnifies whom?";
     lit "Indemnity Scope: For what exactly?";
     lit "Confidentiality: Is the scope reasonable?" ] |}.

Definition disputeResolution : StepDefinition :=
  {| id := 5;
   title := lit "Dispute Resolution";
   duration := 60;
   description := lit "Avoid the wrong jurisdiction, wrong seat, or expensive arbitration.";
   checklist := [
     lit "Jurisdiction: Is it favorable/neutral?";
     lit "Seat: Is the physical location practical?";
     lit "Arbitration: Is it mandatory? Who pays?";
     lit "Delays: Are timeline mechanisms clear?" ] |}.

Definition finalSanityCheck : StepDefinition :=
  {| id := 6;
   title := lit "Final Sanity Check";
   duration := 60;
   description := lit "Quick scan for structural integrity and missing pieces.";
   checklist := [
     lit "Conflicting clauses";
     lit "Missing annexures/exhibits";
     lit "Internal inconsistencies";
     lit "Signature blocks correct" ] |}.

Definition steps : list StepDefinition :=
  [ controlClauses; moneyObligations; definitions; indemnityConfidentiality;
    disputeResolution; finalSanityCheck ].

(** ** Session state *)

(** The seven [useState] cells of [App], and [interval]: whether the
    [setInterval] handle created by the timer effect is live. *)
Record App := mkApp {
  activeStep : nat;
  isTimerRunning : bool;
  timeLeft : Z;
  findings : gmap nat FindingData;
  reviewComplete : bool;
  contractName : jsstring;
  mobileMenuOpen : bool;
  interval : bool
}.

Definition setActiveStep (v : nat) (a : App) : App :=
  mkApp v (isTimerRunning a) (timeLeft a) (findings a) (reviewComplete a)
        (contractName a) (mobileMenuOpen a) (interval a).
Definition setIsTimerRunning (v : bool) (a : App) : App :=
  mkApp (activeStep a) v (timeLeft a) (findings a) (reviewComplete a)
        (contractName a) (mobileMenuOpen a) (interval a).
Definition setTimeLeft (v : Z) (a : App) : App :=
  mkApp (activeStep a) (isTimerRunning a) v (findings a) (reviewComplete a)
        (contractName a) (mobileMenuOpen a) (interval a).
Definition setFindings (v : gmap nat FindingData) (a : App) : App :=
  mkApp (activeStep a) (isTimerRunning a) (timeLeft a) v (reviewComplete a)
        (contractName a) (mobileMenuOpen a) (interval a).
Definition setReviewComplete (v : bool) (a : App) : App :=
  mkApp (activeStep a) (isTimerRunning a) (timeLeft a) (findings a) v
        (contractName a) (mobileMenuOpen a) (interval a).
Definition setContractName (v : jsstring) (a : App) : App :=
  mkApp (activeStep a) (isTimerRunning a) (timeLeft a) (findings a)
        (reviewComplete a) v (mobileMenuOpen a) (interval a).
Definition setMobileMenuOpen (v : bool) (a : App) : App :=
  mkApp (activeStep a) (isTimerRunning a) (timeLeft a) (findings a)
        (reviewComplete a) (contractName a) v (interval a).
(** [setInterval] / [clearInterval] on the handle of the timer effect. *)
Definition setIntervalLive (v : bool) (a : App) : App :=
  mkApp (activeStep a) (isTimerRunning a) (timeLeft a) (findings a)
        (reviewComplete a) (contractName a) (mobileMenuOpen a) v.

(** The [useState] initialisers. *)
Definition initialState : App := mkApp 0 false 60 ∅ false [] false false.

(** ** Handlers *)

Definition toggleTimer (a : App) : App :=
  setIsTimerRunning (negb (isTimerRunning a)) a.

(** [steps[activeStep].duration] throws on an index outside the catalogue:
    [None]. *)
Definition resetTimer (a : App) : option App :=
  step ← steps !! activeStep a;
  Some (setTimeLeft (duration step) (setIsTimerRunning false a)).

Definition handleNext (a : App) : App :=
  if activeStep a <? length steps - 1
  then setActiveStep (activeStep a + 1) a
  else setReviewComplete true a.

Definition handleBack (a : App) : App :=
  if 0 <? activeStep a then setActiveStep (activeStep a - 1) a else a.

Definition updateFinding (text : jsstring) (a : App) : App :=
  let prev := findings a in
  setFindings
    (<[activeStep a :=
         {| checked := default [] (checked <$> prev !! activeStep a);
            notes := text |}]> prev) a.

Definition toggleChecklist (item : jsstring) (a : App) : App :=
  let prev := findings a in
  let currentList := default [] (checked <$> prev !! activeStep a) in
  let newList :=
    if bool_decide (item ∈ currentList)
    then filter (λ i, i ≠ item) currentList
    else currentList ++ [item] in
  setFindings
    (<[activeStep a :=
         {| checked := newList;
            notes := default [] (notes <$> prev !! activeStep a) |}]> prev) a.

(** The interval callback. *)
Definition tick (a : App) : App := setTimeLeft (timeLeft a - 1) a.

(** The confirmed branch of the "Start New Review" button. *)
Definition startNewReview (a : App) : App :=
  setIsTimerRunning false
    (setContractName []
       (setFindings ∅ (setActiveStep 0 (setReviewComplete false a)))).

(** ** Effects *)

(** The timer effect, for the render [r]: its cleanup clears the handle of
    the previous run, then its body runs. *)
Definition timerEffect (r : App) (a : App) : App :=
  let a := setIntervalLive false a in
  if isTimerRunning r && (0 <? timeLeft r)%Z then setIntervalLive true a
  else if (timeLeft r =? 0)%Z then setIsTimerRunning false a
  else a.

(** The step-change effect, for the render [r]. *)
Definition stepEffect (r : App) (a : App) : option App :=
  step ← steps !! activeStep r;
  Some (setMobileMenuOpen false
          (setIsTimerRunning false (setTimeLeft (duration step) a))).

(** An effect runs after the first render ([prev = None]) and after a render
    in which one of its dependencies differs from the previous render.
    [steps] is memoised with no dependencies and never differs. *)
Definition depsChanged {D} `{EqDecision D}
    (deps : App → D) (prev : option App) (r : App) : bool :=
  match prev with
  | None => true
  | Some p => bool_decide (deps p ≠ deps r)
  end.

Definition timerDeps (r : App) : bool * Z := (isTimerRunning r, timeLeft r).
Definition stepDeps (r : App) : nat := activeStep r.

(** Render [a], run the effects due (in the order they are declared, each
    reading the state of this render), render again with the updates they
    queued. [fuel] bounds the nested updates; [None] is a thrown error. *)
Fixpoint commit (fuel : nat) (prev : option App) (a : App) : option App :=
  match fuel with
  | O => None
  | S fuel' =>
    let t := depsChanged timerDeps prev a in
    let s := depsChanged stepDeps prev a in
    if t || s then
      a2 ← (let a1 := if t then timerEffect a a else a in
            if s then stepEffect a a1 else Some a1);
      commit fuel' (Some a) a2
    else Some a
  end.

(** React gives up after this many nested updates. *)
Definition nestedUpdateLimit : nat := 50.

(** The component after it is mounted. *)
Definition mount : option App := commit nestedUpdateLimit None initialState.

(** ** Events *)

Inductive Event :=
| Tick
| ToggleTimer
| ResetTimer
| Next
| Back
| SidebarClick (idx : nat)
| MobileMenuClick (idx : nat)
| MenuButton
| CheckboxChange (item : jsstring)
| NotesChange (text : jsstring)
| ContractNameChange (text : jsstring)
| ReturnToReview
| CopyToClipboard
| StartNewReview (confirmed : bool).

(** Whether the control of the event is rendered (and not disabled), or, for
    [Tick], whether the interval is live. The summary view replaces the
    review view while [reviewComplete] holds. *)
Definition enabled (e : Event) (a : App) : bool :=
  match e with
  | Tick => interval a
  | ToggleTimer | ResetTimer | Next | MenuButton
  | NotesChange _ | ContractNameChange _ => negb (reviewComplete a)
  | Back => negb (reviewComplete a) && negb (activeStep a =? 0)
  | SidebarClick idx => negb (reviewComplete a) && (idx <? length steps)
  | MobileMenuClick idx =>
      negb (reviewComplete a) && mobileMenuOpen a && (idx <? length steps)
  | CheckboxChange item =>
      negb (reviewComplete a) &&
      bool_decide (item ∈ default [] (checklist <$> steps !! activeStep a))
  | ReturnToReview | CopyToClipboard | StartNewReview _ => reviewComplete a
  end.

Definition handler (e : Event) (a : App) : option App :=
  match e with
  | Tick => Some (tick a)
  | ToggleTimer => Some (toggleTimer a)
  | ResetTimer => resetTimer a
  | Next => Some (handleNext a)
  | Back => Some (handleBack a)
  | SidebarClick idx | MobileMenuClick idx => Some (setActiveStep idx a)
  | MenuButton => Some (setMobileMenuOpen (negb (mobileMenuOpen a)) a)
  | CheckboxChange item => Some (toggleChecklist item a)
  | NotesChange text => Some (updateFinding text a)
  | ContractNameChange text => Some (setContractName text a)
  | ReturnToReview => Some (setReviewComplete false a)
  | CopyToClipboard => Some a
  | StartNewReview confirmed => Some (if confirmed then startNewReview a else a)
  end.

(** One event: the handler's updates, then the renders and effects they
    cause. [None] when the event cannot occur in [a] or an error is thrown. *)
Definition dispatch (e : Event) (a : App) : option App :=
  if enabled e a then a' ← handler e a; commit nestedUpdateLimit (Some a) a'
  else None.

Fixpoint run (es : list Event) (a : App) : option App :=
  match es with
  | [] => Some a
  | e :: es' => a' ← dispatch e a; run es' a'
  end.

Inductive reachable : App → Prop :=
| reachable_mount a : mount = Some a → reachable a
| reachable_dispatch e a a' :
    reachable a → dispatch e a = Some a' → reachable a'.

(** ** The sidebar *)

(** The condition under which a sidebar entry shows its "Has findings" dot:
    [findings[idx]?.checked?.length || findings[idx]?.notes], as a truth
    value. *)
Definition hasFindingsDot (f : gmap nat FindingData) (idx : nat) : bool :=
  match f !! idx with
  | Some d => negb (length (checked d) =? 0) || negb (bool_decide (notes d = []))
  | None => false
  end.

(** ** The report *)

(** [hasIssues] of the [forEach] callback, as a truth value. *)
Definition hasIssues (stepData : option FindingData) : bool :=
  match stepData with
  | Some d =>
      (0 <? length (checked d)) ||
      negb (bool_decide (notes d = [])) && negb (bool_decide (trim (notes d) = []))
  | None => false
  end.

Definition flagLine (item : jsstring) : jsstring := lit " - [x] " ++ item ++ nl.

Definition titleLine (index : nat) (step : StepDefinition) : jsstring :=
  lit "[" ++ numberToString (index + 1) ++ lit "] "
    ++ toUpperCase (title step) ++ nl.

Definition separator : jsstring :=
  nl ++ lit "-----------------------------------" ++ nl ++ nl.

(** What one call of the [forEach] callback appends to [report]. *)
Definition stepBlock (index : nat) (step : StepDefinition)
    (stepData : option FindingData) : jsstring :=
  titleLine index step ++
  (if hasIssues stepData then
     match stepData with
     | Some d =>
         (if 0 <? length (checked d)
          then lit "Flags Identified:" ++ nl ++ concat (flagLine <$> checked d)
          else []) ++
         (if bool_decide (notes d = []) then []
          else lit "Notes: " ++ notes d ++ nl)
     | None => []
     end
   else lit "Status: No specific issues flagged." ++ nl) ++
  separator.

(** [date] stands for [new Date().toLocaleDateString()]. *)
Definition generateReport (date : jsstring) (a : App) : jsstring :=
  let report :=
    lit "7-MINUTE CONTRACT REVIEW REPORT" ++ nl ++
    lit "Contract: " ++
      (if bool_decide (contractName a = []) then lit "Untitled"
       else contractName a) ++ nl ++
    lit "Date: " ++ date ++ nl ++ nl in
  foldl (λ report '(index, step),
           report ++ stepBlock index step (findings a !! index))
        report (imap pair steps).

(** ** Reading the report *)

(** The lines [generateReport] writes before the first step. *)
Definition reportHeader (date : jsstring) (a : App) : jsstring :=
  lit "7-MINUTE CONTRACT REVIEW REPORT" ++ nl ++
  lit "Contract: " ++
    (if bool_decide (contractName a = []) then lit "Untitled"
     else contractName a) ++ nl ++
  lit "Date: " ++ date ++ nl ++ nl.

(** The text split at its line feeds. *)
Fixpoint lines (s : jsstring) : list jsstring :=
  match s with
  | [] => [[]]
  | c :: s' =>
      if (c =? 10)%N then [] :: lines s'
      else match lines s' with
           | l :: ls => (c :: l) :: ls
           | [] => [[c]]
           end
  end.


(** ** Where the render loop settles *)

(** The state [a'] in which the loop comes to rest, from the last render [p]
    and the state [a] the handler left; [step] is the step active in [a]. *)
Definition settles (p a : App) (step : StepDefinition) (a' : App) : Prop :=
  activeStep a' = activeStep a ∧ findings a' = findings a ∧
  reviewComplete a' = reviewComplete a ∧ contractName a' = contractName a ∧
  if decide (activeStep p = activeStep a) then
    timeLeft a' = timeLeft a ∧ mobileMenuOpen a' = mobileMenuOpen a ∧
    if decide (timerDeps p = timerDeps a)
    then isTimerRunning a' = isTimerRunning a ∧ interval a' = interval a
    else isTimerRunning a' = isTimerRunning a && negb (timeLeft a =? 0)%Z ∧
         interval a' = isTimerRunning a && (0 <? timeLeft a)%Z
  else
    timeLeft a' = duration step ∧ isTimerRunning a' = false ∧
    mobileMenuOpen a' = false ∧
    interval a' =
      if decide (timerDeps p = timerDeps a ∧ timerDeps a = (false, duration step))
      then interval a else false.

(** ** Invariants of the reachable states *)

(** The countdown stays within the active step's budget, the interval is
    live exactly while the timer runs above zero, and a timer at zero is
    stopped. *)
Definition timer_inv (a : App) : Prop :=
  (0 ≤ timeLeft a)%Z ∧
  interval a = isTimerRunning a && (0 <? timeLeft a)%Z ∧
  (timeLeft a = 0%Z → isTimerRunning a = false) ∧
  ∃ step, steps !! activeStep a = Some step ∧ (timeLeft a ≤ duration step)%Z.

(** Findings are recorded for catalogue steps only; their checked labels
    come from the step's checklist, each once. *)
Definition findings_inv (a : App) : Prop :=
  ∀ i d, findings a !! i = Some d →
    ∃ step, steps !! i = Some step ∧
            NoDup (checked d) ∧ checked d ⊆ checklist step.

(** The summary view is entered from the last step and offers no
    navigation. *)
Definition view_inv (a : App) : Prop :=
  reviewComplete a = true → activeStep a = length steps - 1.

Definition inv (a : App) : Prop := timer_inv a ∧ view_inv a ∧ findings_inv a.

(** ** Sample sessions *)

(** First step, timer started, mobile menu opened. *)
Definition timerStarted : App := mkApp 0 true 60 ∅ false [] true true.

(** The same a second later. *)
Definition timerBusy : App := mkApp 0 true 59 ∅ false [] true true.

(** First step, timer running with one second left. *)
Definition lastSecond : App := mkApp 0 true 1 ∅ false [] false true.

(** The last step, after five clicks on Next. *)
Definition lastStep : App := mkApp 5 false 60 ∅ false [] false false.

(** The summary view after six clicks on Next. *)
Definition summaryView : App := mkApp 5 false 60 ∅ true [] false false.

(** "Term" checked on the first step. *)
Definition termFlagged : App :=
  mkApp 0 false 60
    {[ 0 := {| checked := [lit "Term: Is the duration clear?"]; notes := [] |} ]}
    false [] false false.

(** "Liability" checked, then "Term", on the first step. *)
Definition liabilityThenTerm : App :=
  mkApp 0 false 60
    {[ 0 := {| checked := [lit "Liability: Is it capped? Are we exposed?";
                           lit "Term: Is the duration clear?"];
               notes := [] |} ]}
    false [] false false.

(** A review with a contract name and findings on the first step, on the
    last step with the timer running at 59 seconds. *)
Definition lastStepRunning : App :=
  mkApp 5 true 59
    {[ 0 := {| checked := [lit "Term: Is the duration clear?"];
               notes := lit "Ends 2027" |} ]}
    false (lit "MSA-17") false true.

(** The same review in the summary view, the timer still running. *)
Definition busySummary : App :=
  mkApp 5 true 59
    {[ 0 := {| checked := [lit "Term: Is the duration clear?"];
               notes := lit "Ends 2027" |} ]}
    true (lit "MSA-17") false true.

(** Back on the first step, with findings recorded on the first and the
    fourth step. *)
Definition indemnityNoted : App :=
  mkApp 0 false 60
    {[ 0 := {| checked := [lit "Term: Is the duration clear?"]; notes := [] |};
       3 := {| checked := [lit "Indemnity: Who indemnifies whom?"];
               notes := lit "Uncapped" |} ]}
    false [] false false.

(** One space typed into the notes of the first step. *)
Definition blankNotes : App :=
  mkApp 0 false 60 {[ 0 := {| checked := []; notes := lit " " |} ]}
    false [] false false.

(** ** The review view *)

(** Template interpolation of an integer. *)
Definition integerToString (z : Z) : jsstring :=
  match z with
  | Zneg p => lit "-" ++ numberToString (Pos.to_nat p)
  | _ => numberToString (Z.to_nat z)
  end.

(** [Math.floor(seconds / 60)] is the floor quotient and [%] the remainder
    with the sign of the dividend, on the integers [timeLeft] takes. *)
Definition formatTime (seconds : Z) : jsstring :=
  let mins := (seconds / 60)%Z in
  let secs := Z.rem seconds 60 in
  integerToString mins ++ lit ":" ++
    (if (secs <? 10)%Z then lit "0" else []) ++ integerToString secs.

(** The text of the "Minute" badge. *)
Definition minuteLabel (activeStep : nat) : jsstring :=
  if activeStep =? 1 then lit "2-3"
  else if activeStep <? 1 then lit "1"
  else numberToString (activeStep + 2).

(** The text of the Next button. *)
Definition nextLabel (a : App) : jsstring :=
  if activeStep a =? length steps - 1 then lit "Finish Review"
  else lit "Next Step".

(** The [checked] attribute of the checkbox of [item]:
    [findings[activeStep]?.checked?.includes(item) || false]. *)
Definition isChecked (a : App) (item : jsstring) : bool :=
  match findings a !! activeStep a with
  | Some d => bool_decide (item ∈ checked d)
  | None => false
  end.

(** The [value] of the notes text area: [findings[activeStep]?.notes || '']. *)
Definition notesValue (a : App) : jsstring :=
  default [] (notes <$> findings a !! activeStep a).

(** The seconds budgeted to the steps before position [i]. *)
Definition elapsedBefore (i : nat) : Z :=
  foldr Z.add 0%Z (duration <$> take i steps).

(** * Properties *)

(** ** The catalogue *)

Lemma steps_lookup i :
  i < length steps → ∃ step, steps !! i = Some step ∧ (0 < duration step)%Z.
Proof.
  intros Hi. do 6 (destruct i as [|i]; [eexists; split; [reflexivity|done]|]).
  simpl in Hi. lia.
Qed.

Lemma steps_lookup_inv i step :
  steps !! i = Some step → i < length steps ∧ (0 < duration step)%Z.
Proof.
  intros H. split; [by eapply lookup_lt_Some|].
  do 6 (destruct i as [|i]; [by simplify_eq/=|]). done.
Qed.

(** [toUpperCase] is applied to the titles only, and they are ASCII. *)
Example titles_ascii :
  Forall (λ step, Forall (λ c, (c < 128)%N) (title step)) steps.
Proof. apply (bool_decide_unpack _). by vm_compute. Qed.

(** ** The render loop *)

Lemma commit_unfold fuel prev a :
  commit (S fuel) prev a =
    if depsChanged timerDeps prev a || depsChanged stepDeps prev a then
      a2 ← (let a1 := if depsChanged timerDeps prev a then timerEffect a a else a in
            if depsChanged stepDeps prev a then stepEffect a a1 else Some a1);
      commit fuel (Some a) a2
    else Some a.
Proof. reflexivity. Qed.

(** A render that changes no dependency runs no effect. *)
Lemma commit_stable fuel p a :
  timerDeps p = timerDeps a → stepDeps p = stepDeps a →
  commit (S fuel) (Some p) a = Some a.
Proof.
  intros Ht Hs. rewrite commit_unfold. unfold depsChanged.
  by rewrite !bool_decide_eq_false_2 by (intros H; by apply H).
Qed.

Lemma commit_same fuel a : commit (S fuel) (Some a) a = Some a.
Proof. by apply commit_stable. Qed.

(** One pass of [commit], split on every test it makes. *)
Ltac commit_pass H :=
  rewrite commit_unfold;
  unfold depsChanged, timerDeps, stepDeps, timerEffect, stepEffect,
    setMobileMenuOpen, setIsTimerRunning, setTimeLeft, setIntervalLive;
  cbn -[commit]; rewrite ?H; cbn -[commit];
  repeat first
    [ case_bool_decide
    | match goal with
      | |- context [if ?b then _ else _] => destruct b eqn:?
      end ];
  cbn -[commit]; simplify_eq.

(** Three passes are enough: the loop never runs out of fuel. *)
Lemma commit_spec fuel p a step :
  3 ≤ fuel → steps !! activeStep a = Some step →
  ∃ a', commit fuel (Some p) a = Some a' ∧ settles p a step a'.
Proof.
  intros Hfuel Hstep.
  destruct fuel as [|[|[|fuel]]]; [lia..|].
  pose proof (steps_lookup_inv _ _ Hstep) as [_ Hpos].
  destruct p as [pa pr pt pf pc pn pm pi], a as [aa ar at_ af ac an am ai].
  unfold timerDeps in *. cbn [activeStep] in Hstep.
  commit_pass Hstep.
  all: try commit_pass Hstep.
  all: try commit_pass Hstep.
  all: eexists; (split; [reflexivity|]); unfold settles, timerDeps; cbn.
  all: repeat case_decide; simplify_eq/=.
  all: rewrite ?Z.ltb_lt, ?Z.ltb_ge, ?Z.eqb_eq, ?Z.eqb_neq in *.
  all: try (intuition (try congruence; try lia); fail).
  all: destruct_and?; simplify_eq/=; try done.
  all: rewrite ?andb_true_iff, ?andb_false_iff, ?Z.ltb_lt, ?Z.ltb_ge, ?Z.eqb_eq, ?Z.eqb_neq in *.
  all: try (destruct ar; simpl; intuition (try congruence; try lia); fail).
  all: exfalso; match goal with H : ¬ _ |- _ => by apply H end.
Qed.

Lemma mount_eq : mount = Some initialState.
Proof. reflexivity. Qed.

Lemma dispatch_spec e a a1 step :
  enabled e a = true → handler e a = Some a1 →
  steps !! activeStep a1 = Some step →
  ∃ a', dispatch e a = Some a' ∧ settles a a1 step a'.
Proof.
  intros He Hh Hstep. unfold dispatch. rewrite He, Hh. cbn -[commit].
  apply commit_spec; [unfold nestedUpdateLimit; lia|done].
Qed.

(** ** The model on the sample sessions *)

Example fifteen_ticks :
  run (ToggleTimer :: replicate 15 Tick) initialState
    = Some (mkApp 0 true 45 ∅ false [] false true).
Proof. by vm_compute. Qed.

Example run_to_zero :
  run (ToggleTimer :: replicate 60 Tick) initialState
    = Some (mkApp 0 false 0 ∅ false [] false false).
Proof. by vm_compute. Qed.

Example toggle_at_zero_stays_stopped :
  dispatch ToggleTimer (mkApp 0 false 0 ∅ false [] false false)
    = Some (mkApp 0 false 0 ∅ false [] false false).
Proof. by vm_compute. Qed.

Example report_with_issues :
  stepBlock 1 moneyObligations
    (Some {| checked := [lit "Payment Amount: Is the math exact?";
                         lit "Deadlines: Are dates hard or soft?"];
             notes := lit "Late fee clause missing." |})
  = lit "[2] MONEY, OBLIGATIONS & TIMELINES" ++ nl ++
    lit "Flags Identified:" ++ nl ++
    lit " - [x] Payment Amount: Is the math exact?" ++ nl ++
    lit " - [x] Deadlines: Are dates hard or soft?" ++ nl ++
    lit "Notes: Late fee clause missing." ++ nl ++
    separator.
Proof. by vm_compute. Qed.

Example timerStarted_run :
  run [ToggleTimer; MenuButton] initialState = Some timerStarted.
Proof. by vm_compute. Qed.

Example lastStep_run :
  run [Next; Next; Next; Next; Next] initialState = Some lastStep.
Proof. by vm_compute. Qed.

(** ** Reachable states *)

Lemma reachable_initial : reachable initialState.
Proof. apply reachable_mount, mount_eq. Qed.

Lemma run_reachable es a a' : reachable a → run es a = Some a' → reachable a'.
Proof.
  revert a. induction es as [|e es IH]; intros a Ha Hr; simpl in Hr.
  - by simplify_eq.
  - destruct (dispatch e a) as [a1|] eqn:Hd; [|done]. simpl in Hr.
    eapply IH; [|done]. by eapply reachable_dispatch.
Qed.

Lemma summaryView_reachable : reachable summaryView.
Proof.
  apply (run_reachable [Next; Next; Next; Next; Next; Next] initialState);
    [apply reachable_initial|by vm_compute].
Qed.

Lemma lastStepRunning_reachable : reachable lastStepRunning.
Proof.
  apply (run_reachable
           [CheckboxChange (lit "Term: Is the duration clear?");
            NotesChange (lit "Ends 2027"); ContractNameChange (lit "MSA-17");
            Next; Next; Next; Next; Next; ToggleTimer; Tick] initialState);
    [apply reachable_initial|by vm_compute].
Qed.

Lemma busySummary_reachable : reachable busySummary.
Proof.
  apply (run_reachable [Next] lastStepRunning);
    [apply lastStepRunning_reachable|by vm_compute].
Qed.

Lemma indemnityNoted_reachable : reachable indemnityNoted.
Proof.
  apply (run_reachable
           [SidebarClick 3;
            CheckboxChange (lit "Indemnity: Who indemnifies whom?");
            NotesChange (lit "Uncapped"); SidebarClick 0;
            CheckboxChange (lit "Term: Is the duration clear?")] initialState);
    [apply reachable_initial|by vm_compute].
Qed.

Lemma lastSecond_reachable : reachable lastSecond.
Proof.
  apply (run_reachable (ToggleTimer :: replicate 59 Tick) initialState);
    [apply reachable_initial|by vm_compute].
Qed.

Lemma termFlagged_reachable : reachable termFlagged.
Proof.
  apply (run_reachable [CheckboxChange (lit "Term: Is the duration clear?")]
           initialState); [apply reachable_initial|by vm_compute].
Qed.

(** ** The invariants hold in every reachable state *)

Lemma inv_initial : inv initialState.
Proof.
  split_and!.
  - unfold timer_inv. simpl. split_and!; [lia|done|done|]. eexists. split; [reflexivity|]. simpl. lia.
  - intros H. done.
  - intros i d H. simpl in H. by rewrite lookup_empty in H.
Qed.

Lemma toggle_NoDup (item : jsstring) (l : list jsstring) :
  NoDup l →
  NoDup (if bool_decide (item ∈ l) then filter (λ i, i ≠ item) l else l ++ [item]).
Proof.
  intros Hl. case_bool_decide.
  - by apply NoDup_filter.
  - apply NoDup_app. split_and!; [done| |apply NoDup_singleton].
    intros x Hx ->%list_elem_of_singleton. done.
Qed.

Lemma toggle_subseteq (item : jsstring) (l cl : list jsstring) :
  l ⊆ cl → item ∈ cl →
  (if bool_decide (item ∈ l) then filter (λ i, i ≠ item) l else l ++ [item]) ⊆ cl.
Proof.
  intros Hl Hi x. case_bool_decide.
  - intros [_ ?]%list_elem_of_filter. by apply Hl.
  - intros [?| ->%list_elem_of_singleton]%elem_of_app; [by apply Hl|done].
Qed.

Lemma timer_inv_settles a a1 step1 a' :
  timer_inv a → settles a a1 step1 a' →
  steps !! activeStep a1 = Some step1 →
  interval a1 = interval a →
  (activeStep a1 = activeStep a → (0 ≤ timeLeft a1 ≤ duration step1)%Z) →
  timer_inv a'.
Proof.
  intros (Hnn & Hint & Hz & step & Hstep & Hle) (Ha & _ & _ & _ & Hs) Hstep1 Hi Hb.
  pose proof (steps_lookup_inv _ _ Hstep1) as [_ Hpos].
  unfold timer_inv. rewrite Ha.
  destruct (decide (activeStep a = activeStep a1)) as [Heq|Hne].
  - destruct Hs as (-> & _ & Hs). specialize (Hb (eq_sym Heq)).
    destruct (decide (timerDeps a = timerDeps a1)) as [Hd|Hd].
    + destruct Hs as [-> ->]. unfold timerDeps in Hd. simplify_eq.
      rewrite Hi. rewrite <- H0 in Hb. rewrite <- H, <- H0.
      split_and!; [lia|done|done|eauto with lia].
    + destruct Hs as [-> ->]. split_and!; [lia| | |eauto with lia].
      * destruct (isTimerRunning a1); simpl; [|done].
        by destruct (Z.eqb_spec (timeLeft a1) 0) as [->|].
      * intros ->. by rewrite andb_false_r.
  - destruct Hs as (-> & -> & _ & ->). split_and!; [lia| |done|eauto with lia].
    case_decide as Hc; [|done]. destruct Hc as [Hc1 Hc2].
    unfold timerDeps in *. simplify_eq. rewrite Hi, Hint.
    by replace (isTimerRunning a) with false by congruence.
Qed.

Lemma handler_inv e a a1 step :
  inv a → steps !! activeStep a = Some step →
  enabled e a = true → handler e a = Some a1 →
  interval a1 = interval a ∧ activeStep a1 < length steps ∧
  (activeStep a1 = activeStep a → (0 ≤ timeLeft a1 ≤ duration step)%Z) ∧
  view_inv a1 ∧ findings_inv a1.
Proof.
  intros ((Hnn & Hint & Hz & step' & Hstep' & Hle) & Hv & Hf) Hstep He Hh.
  assert (step' = step) as -> by congruence. clear Hstep'.
  pose proof (steps_lookup_inv _ _ Hstep) as [Hlt Hpos].
  unfold view_inv, findings_inv in *.
  assert (Hupd : ∀ (l : list jsstring) (n : jsstring),
            NoDup l → l ⊆ checklist step →
            ∀ i d, <[activeStep a := {| checked := l; notes := n |}]> (findings a) !! i = Some d →
            ∃ step0, steps !! i = Some step0 ∧ NoDup (checked d) ∧ checked d ⊆ checklist step0).
  { intros l n Hl Hsub i d. rewrite lookup_insert. case_decide; [|by apply Hf].
    intros [= <-]. subst i. eauto. }
  assert (Hcur : NoDup (default [] (checked <$> findings a !! activeStep a)) ∧
                 default [] (checked <$> findings a !! activeStep a) ⊆ checklist step).
  { destruct (findings a !! activeStep a) as [d|] eqn:Hd; simpl.
    - destruct (Hf _ _ Hd) as (step0 & ? & ? & ?). by simplify_eq.
    - split; [apply NoDup_nil_2|]. intros x Hx. by apply elem_of_nil in Hx. }
  destruct Hcur as [Hnd Hsub].
  destruct e; simpl in He, Hh;
    rewrite ?andb_true_iff, ?negb_true_iff, ?Nat.ltb_lt, ?Nat.eqb_neq in He;
    destruct_and?.
  - (* Tick *)
    simplify_eq/=. rewrite He in Hint. symmetry in Hint.
    apply andb_true_iff in Hint as [_ Hint%Z.ltb_lt].
    split_and!; [done|done|lia|done|done].
  - (* ToggleTimer *) simplify_eq/=. split_and!; [done|done|lia|done|done].
  - (* ResetTimer *)
    unfold resetTimer in Hh. rewrite Hstep in Hh. simplify_eq/=.
    split_and!; [done|done|lia|done|done].
  - (* Next *)
    simplify_eq/=. unfold handleNext. case_match; simpl.
    + rewrite Nat.ltb_lt in *. simpl in *. split_and!; [done|lia|lia|congruence|done].
    + rewrite Nat.ltb_ge in *. simpl in *. split_and!; [done|lia|lia|lia|done].
  - (* Back *)
    simplify_eq/=. unfold handleBack. case_match; simpl.
    + split_and!; [done|lia|lia|congruence|done].
    + split_and!; [done|lia|lia|congruence|done].
  - (* SidebarClick *)
    simplify_eq/=. split_and!; [done|done|lia|congruence|done].
  - (* MobileMenuClick *)
    simplify_eq/=. split_and!; [done|done|lia|congruence|done].
  - (* MenuButton *) simplify_eq/=. split_and!; [done|done|lia|done|done].
  - (* CheckboxChange *)
    simplify_eq/=. rewrite Hstep in *. simpl in *.
    match goal with H : bool_decide _ = true |- _ => apply bool_decide_eq_true in H end.
    split_and!; [done|done|lia|done|].
    apply Hupd; [by apply toggle_NoDup|by apply toggle_subseteq].
  - (* NotesChange *)
    simplify_eq/=. split_and!; [done|done|lia|done|]. by apply Hupd.
  - (* ContractNameChange *) simplify_eq/=. split_and!; [done|done|lia|done|done].
  - (* ReturnToReview *) simplify_eq/=. split_and!; [done|done|lia|done|done].
  - (* CopyToClipboard *) simplify_eq/=. split_and!; [done|done|lia|done|done].
  - (* StartNewReview *)
    simplify_eq/=. destruct confirmed; simpl.
    + split_and!; [done|lia|lia|done|]. intros i d. by rewrite lookup_empty.
    + split_and!; [done|done|lia|done|done].
Qed.

Lemma inv_dispatch e a a' : inv a → dispatch e a = Some a' → inv a'.
Proof.
  intros Hinv Hd.
  pose proof Hinv as ((_ & _ & _ & step & Hstep & _) & _ & _).
  unfold dispatch in Hd. destruct (enabled e a) eqn:He; [|done].
  destruct (handler e a) as [a1|] eqn:Hh; [|done].
  destruct (handler_inv e a a1 step Hinv Hstep He Hh) as (Hi & Hlt & Hb & Hv & Hf).
  destruct (steps_lookup _ Hlt) as (step1 & Hstep1 & _).
  destruct (dispatch_spec e a a1 step1 He Hh Hstep1) as (a2 & Hd2 & Hs).
  unfold dispatch in Hd2. rewrite He, Hh in Hd2. rewrite Hd2 in Hd. simplify_eq.
  split_and!.
  - eapply timer_inv_settles; [apply Hinv|done..|].
    intros Heq. rewrite Heq in Hstep1. assert (step1 = step) as -> by congruence.
    by apply Hb.
  - destruct Hs as (Ha & _ & Hr & _). unfold view_inv. by rewrite Ha, Hr.
  - destruct Hs as (_ & Hfi & _). unfold findings_inv. by rewrite Hfi.
Qed.

Lemma reachable_inv a : reachable a → inv a.
Proof.
  induction 1 as [a Hm|e a a' _ IH Hd].
  - rewrite mount_eq in Hm. simplify_eq. apply inv_initial.
  - by eapply inv_dispatch.
Qed.

(** An enabled event of a reachable state is handled without error. *)
Lemma dispatch_total e a :
  inv a → enabled e a = true → is_Some (dispatch e a).
Proof.
  intros Hinv He.
  pose proof Hinv as ((_ & _ & _ & step & Hstep & _) & _ & _).
  assert (∃ a1, handler e a = Some a1) as [a1 Hh].
  { destruct e; simpl; eauto. unfold resetTimer. rewrite Hstep. simpl. eauto. }
  destruct (handler_inv e a a1 step Hinv Hstep He Hh) as (_ & Hlt & _).
  destruct (steps_lookup _ Hlt) as (step1 & Hstep1 & _).
  destruct (dispatch_spec e a a1 step1 He Hh Hstep1) as (a2 & -> & _). eauto.
Qed.

(** ** The report, block by block *)

Lemma foldl_blocks (f : nat → StepDefinition → jsstring) l (r : jsstring) k :
  foldl (λ report '(index, step), report ++ f index step) r
        (imap (λ i, pair (k + i)) l)
  = r ++ concat (imap (λ i, f (k + i)) l).
Proof.
  revert r k. induction l as [|s l IH]; intros r k; simpl.
  - by rewrite app_nil_r.
  - rewrite Nat.add_0_r.
    rewrite (imap_ext _ (λ i, pair (S k + i))) by (intros; simpl; f_equal; lia).
    rewrite IH, <- app_assoc. do 3 f_equal.
    apply imap_ext. intros. simpl. f_equal. lia.
Qed.

Lemma generateReport_blocks date a :
  generateReport date a =
    reportHeader date a ++
    concat (imap (λ i step, stepBlock i step (findings a !! i)) steps).
Proof.
  unfold generateReport.
  exact (foldl_blocks (λ i step, stepBlock i step (findings a !! i)) steps _ 0).
Qed.

Lemma generateReport_block date a i step :
  steps !! i = Some step →
  ∃ before after,
    generateReport date a = before ++ stepBlock i step (findings a !! i) ++ after.
Proof.
  intros Hs. rewrite generateReport_blocks.
  assert (∀ (f : nat → StepDefinition → jsstring) l k,
    l !! i = Some step → ∃ b c, concat (imap (λ j, f (k + j)) l) = b ++ f (k + i) step ++ c) as H.
  { clear. intros f l. revert i. induction l as [|s l IH]; intros [|i] k Hl; simplify_eq/=.
    - exists [], (concat (imap (λ j, f (k + S j)) l)). by rewrite Nat.add_0_r.
    - destruct (IH i (S k) Hl) as (b & c & Hbc).
      exists (f (k + 0) s ++ b), c.
      rewrite (imap_ext _ (λ j, f (S k + j))) by (intros; simpl; f_equal; lia).
      rewrite Hbc, <- app_assoc. by replace (S k + i) with (k + S i) by lia. }
  destruct (H (λ j s, stepBlock j s (findings a !! j)) steps 0 Hs) as (b & c & Hbc).
  exists (reportHeader date a ++ b), c. simpl in Hbc.
  rewrite <- app_assoc. f_equal. exact Hbc.
Qed.

(** ** Navigation *)

(** C3, as stated, fails: with the first step active, its timer running at
    59 seconds and the mobile menu open, a click on the first step's entry
    changes nothing: the timer still runs at 59 and the menu stays open. *)
Lemma reclick_active_step_counterexample :
  run [ToggleTimer; Tick; MenuButton] initialState = Some timerBusy ∧
  activeStep timerBusy = 0 ∧
  duration <$> steps !! 0 = Some 60%Z ∧
  dispatch (SidebarClick 0) timerBusy = Some timerBusy ∧
  dispatch (MobileMenuClick 0) timerBusy = Some timerBusy ∧
  isTimerRunning timerBusy = true ∧
  timeLeft timerBusy = 59%Z ∧
  mobileMenuOpen timerBusy = true.
Proof. split_and!; by vm_compute. Qed.

(** C3, amended: a click on the sidebar or mobile menu entry of the step
    that is already active changes no state: the step-change effect does
    not run, the timer keeps its state and the mobile menu stays as it is. *)
Theorem reclick_active_step_unchanged a e :
  e = SidebarClick (activeStep a) ∨ e = MobileMenuClick (activeStep a) →
  enabled e a = true →
  dispatch e a = Some a.
Proof.
  intros He Hen. unfold dispatch. rewrite Hen.
  assert (handler e a = Some a) as ->.
  { destruct He as [-> | ->]; by destruct a. }
  apply commit_same.
Qed.

Lemma reclick_active_step_unchanged_witness :
  dispatch (MobileMenuClick 0) timerBusy = Some timerBusy.
Proof.
  apply (reclick_active_step_unchanged timerBusy (MobileMenuClick 0)).
  - right. reflexivity.
  - reflexivity.
Defined.

(** C4: navigating from step N to a different step M, by Next, Back, a
    sidebar click or a mobile menu click, from any timer and menu state,
    leaves [timeLeft = steps[M].duration], the timer stopped and the mobile
    menu closed. *)
Theorem navigation_resets_timer a e M step :
  reviewComplete a = false →
  steps !! M = Some step →
  M ≠ activeStep a →
  (e = Next ∧ M = activeStep a + 1) ∨ (e = Back ∧ activeStep a = M + 1) ∨
  e = SidebarClick M ∨ (e = MobileMenuClick M ∧ mobileMenuOpen a = true) →
  ∃ a', dispatch e a = Some a' ∧ activeStep a' = M ∧
        timeLeft a' = duration step ∧ isTimerRunning a' = false ∧
        mobileMenuOpen a' = false.
Proof.
  intros Hview Hstep Hne He.
  pose proof (steps_lookup_inv _ _ Hstep) as [Hlt _]. simpl in Hlt.
  assert (enabled e a = true ∧ handler e a = Some (setActiveStep M a))
    as [Hen Hh].
  { destruct He as [[-> ->]|[[-> HM]|[->|[-> Hm]]]]; simpl; rewrite Hview; simpl.
    - split; [done|]. unfold handleNext.
      by replace (activeStep a <? length steps - 1) with true
        by (symmetry; apply Nat.ltb_lt; simpl; lia).
    - split; [apply negb_true_iff, Nat.eqb_neq; lia|]. unfold handleBack.
      replace (0 <? activeStep a) with true by (symmetry; apply Nat.ltb_lt; lia).
      do 2 f_equal. lia.
    - split; [by apply Nat.ltb_lt|done].
    - rewrite Hm. split; [by apply Nat.ltb_lt|done]. }
  destruct (dispatch_spec e a _ step Hen Hh Hstep) as (a' & Hd & Ha & _ & _ & _ & Hs).
  exists a'. simpl in Ha, Hs. rewrite decide_False in Hs by done.
  by destruct Hs as (? & ? & ? & _).
Qed.

Lemma navigation_resets_timer_witness :
  ∃ a', dispatch (MobileMenuClick 1) timerStarted = Some a' ∧ activeStep a' = 1 ∧
        timeLeft a' = 120%Z ∧ isTimerRunning a' = false ∧
        mobileMenuOpen a' = false.
Proof.
  refine (navigation_resets_timer timerStarted (MobileMenuClick 1) 1 _
            eq_refl eq_refl _ _).
  - simpl. lia.
  - right. right. right. split; reflexivity.
Defined.

(** C6: Next on the last step (index 5) sets [reviewComplete] and leaves
    [activeStep] at 5; Next on an earlier step adds exactly 1 to [activeStep]
    and does not set [reviewComplete]. *)
Theorem next_advances_or_completes a :
  reviewComplete a = false → activeStep a < length steps →
  ∃ a', dispatch Next a = Some a' ∧
        if decide (activeStep a = 5)
        then reviewComplete a' = true ∧ activeStep a' = 5
        else activeStep a' = activeStep a + 1 ∧ reviewComplete a' = false.
Proof.
  intros Hview Hlt. simpl in Hlt.
  assert (enabled Next a = true) as Hen by (simpl; by rewrite Hview).
  destruct (steps_lookup (activeStep (handleNext a))) as (step & Hstep & _).
  { unfold handleNext. case_match; simpl; [|done].
    rewrite Nat.ltb_lt in *. simpl in *. lia. }
  destruct (dispatch_spec Next a _ step Hen eq_refl Hstep)
    as (a' & Hd & Ha & _ & Hc & _).
  exists a'. split; [done|]. rewrite Ha, Hc. unfold handleNext.
  case_decide as H5.
  - rewrite H5. simpl. by rewrite H5.
  - replace (activeStep a <? length steps - 1) with true
      by (symmetry; apply Nat.ltb_lt; simpl; lia).
    by simpl.
Qed.

Lemma next_advances_or_completes_witness :
  (∃ a', dispatch Next initialState = Some a' ∧
         activeStep a' = 1 ∧ reviewComplete a' = false) ∧
  (∃ a', dispatch Next lastStep = Some a' ∧
         reviewComplete a' = true ∧ activeStep a' = 5).
Proof.
  split.
  - apply (next_advances_or_completes initialState); [reflexivity|simpl; lia].
  - apply (next_advances_or_completes lastStep); [reflexivity|simpl; lia].
Defined.

(** C5: from a reachable summary view, confirming "Start New Review" resets
    the whole session: first step, no findings, no contract name, review
    view, timer stopped at the first step's 60 seconds. *)
Theorem start_new_review_resets_session a :
  reachable a → reviewComplete a = true →
  ∃ a', dispatch (StartNewReview true) a = Some a' ∧
        activeStep a' = 0 ∧ findings a' = ∅ ∧ contractName a' = [] ∧
        reviewComplete a' = false ∧ isTimerRunning a' = false ∧
        timeLeft a' = 60%Z ∧ duration <$> steps !! 0 = Some (timeLeft a').
Proof.
  intros Hr Hview.
  destruct (reachable_inv _ Hr) as (_ & Hv & _). specialize (Hv Hview).
  simpl in Hv.
  destruct (steps_lookup 0) as (step & Hstep & _); [simpl; lia|].
  destruct (dispatch_spec (StartNewReview true) a (startNewReview a) step)
    as (a' & Hd & Ha & Hf & Hc & Hn & Hs); [done..|].
  exists a'. simpl in *. rewrite decide_False in Hs by lia.
  destruct Hs as (Ht & ? & _). rewrite Ht. by simplify_eq/=.
Qed.

Lemma start_new_review_resets_session_witness :
  (findings busySummary !! 0 =
     Some {| checked := [lit "Term: Is the duration clear?"];
             notes := lit "Ends 2027" |} ∧
   contractName busySummary = lit "MSA-17" ∧
   isTimerRunning busySummary = true ∧ timeLeft busySummary = 59%Z ∧
   activeStep busySummary = 5) ∧
  ∃ a', dispatch (StartNewReview true) busySummary = Some a' ∧
        activeStep a' = 0 ∧ findings a' = ∅ ∧ contractName a' = [] ∧
        reviewComplete a' = false ∧ isTimerRunning a' = false ∧
        timeLeft a' = 60%Z ∧ duration <$> steps !! 0 = Some (timeLeft a').
Proof.
  split; [by vm_compute|].
  apply (start_new_review_resets_session busySummary).
  - apply busySummary_reachable.
  - reflexivity.
Defined.

(** ** The timer *)

(** C7: in every reachable state [timeLeft] is not negative; a timer at 0
    is stopped and no tick can occur there; a tick occurs exactly while the
    timer runs above 0, takes off one second, and stops the timer when it
    brings [timeLeft] to 0. *)
Theorem timer_stops_at_zero a :
  reachable a →
  (0 ≤ timeLeft a)%Z ∧
  (timeLeft a = 0%Z → isTimerRunning a = false ∧ dispatch Tick a = None) ∧
  (is_Some (dispatch Tick a) ↔ isTimerRunning a = true ∧ (0 < timeLeft a)%Z) ∧
  (∀ a', dispatch Tick a = Some a' →
     timeLeft a' = (timeLeft a - 1)%Z ∧ (0 ≤ timeLeft a')%Z ∧
     isTimerRunning a' = negb (timeLeft a' =? 0)%Z).
Proof.
  intros Hr. pose proof (reachable_inv _ Hr) as Hinv.
  pose proof Hinv as ((Hnn & Hint & Hz & step & Hstep & Hle) & _ & _).
  assert (Hlive : interval a = true ↔ isTimerRunning a = true ∧ (0 < timeLeft a)%Z).
  { by rewrite Hint, andb_true_iff, Z.ltb_lt. }
  split_and!; [done| | |].
  - intros H0. split; [by apply Hz|]. unfold dispatch. simpl.
    destruct (interval a) eqn:Hi; [|done]. apply proj1 in Hlive.
    destruct Hlive; [done|lia].
  - rewrite <- Hlive. split.
    + intros [a' Hd]. unfold dispatch in Hd. simpl in Hd.
      by destruct (interval a).
    + intros Hi. by apply dispatch_total.
  - intros a' Hd.
    assert (enabled Tick a = true) as Hen.
    { unfold dispatch in Hd. by destruct (enabled Tick a). }
    destruct (dispatch_spec Tick a (tick a) step Hen eq_refl Hstep)
      as (a2 & Hd2 & _ & _ & _ & _ & Hs).
    assert (a2 = a') as -> by congruence.
    simpl in Hs. rewrite decide_True in Hs by done.
    destruct Hs as (Ht & _ & Hs).
    rewrite decide_False in Hs by (unfold timerDeps; simpl; intros [=]; lia).
    destruct Hs as [Hrun _]. simpl in Hen. apply Hlive in Hen as [Hrun0 Hpos].
    rewrite Ht, Hrun, Hrun0. split_and!; [done|lia|done].
Qed.

Lemma timer_stops_at_zero_witness :
  (0 ≤ timeLeft lastSecond)%Z ∧
  (timeLeft lastSecond = 0%Z →
   isTimerRunning lastSecond = false ∧ dispatch Tick lastSecond = None) ∧
  (is_Some (dispatch Tick lastSecond) ↔
   isTimerRunning lastSecond = true ∧ (0 < timeLeft lastSecond)%Z) ∧
  (∀ a', dispatch Tick lastSecond = Some a' →
     timeLeft a' = (timeLeft lastSecond - 1)%Z ∧ (0 ≤ timeLeft a')%Z ∧
     isTimerRunning a' = negb (timeLeft a' =? 0)%Z).
Proof. apply (timer_stops_at_zero lastSecond), lastSecond_reachable. Defined.

(** ** Findings *)

(** C9: for distinct step indices A and B, toggling a checklist item of
    step A or replacing step A's notes leaves the entry of step B in the
    findings map as it was. *)
Theorem findings_update_frame a B e :
  B ≠ activeStep a →
  (∃ item, e = CheckboxChange item) ∨ (∃ text, e = NotesChange text) →
  (∃ a1, handler e a = Some a1 ∧ findings a1 !! B = findings a !! B) ∧
  (∀ a', dispatch e a = Some a' → findings a' !! B = findings a !! B).
Proof.
  intros Hne He.
  assert (∃ a1, handler e a = Some a1 ∧ activeStep a1 = activeStep a ∧
                findings a1 !! B = findings a !! B) as (a1 & Hh & Ha & Hf).
  { destruct He as [[item ->]|[text ->]]; simpl; eexists; (split; [done|]);
      (split; [done|]); simpl; by rewrite lookup_insert_ne. }
  split; [eauto|]. intros a' Hd.
  unfold dispatch in Hd. destruct (enabled e a) eqn:Hen; [|done].
  rewrite Hh in Hd. cbn -[commit] in Hd.
  unfold nestedUpdateLimit in Hd. rewrite commit_stable in Hd.
  - by simplify_eq.
  - destruct He as [[item ->]|[text ->]]; by simplify_eq/=.
  - done.
Qed.

Lemma findings_update_frame_witness :
  findings indemnityNoted !! 3 =
    Some {| checked := [lit "Indemnity: Who indemnifies whom?"];
            notes := lit "Uncapped" |} ∧
  ((∃ a1, handler (NotesChange (lit "Cap missing")) indemnityNoted = Some a1 ∧
          findings a1 !! 3 = findings indemnityNoted !! 3) ∧
   (∀ a', dispatch (NotesChange (lit "Cap missing")) indemnityNoted = Some a' →
          findings a' !! 3 = findings indemnityNoted !! 3)) ∧
  ((∃ a1, handler (CheckboxChange (lit "Term: Is the duration clear?"))
            indemnityNoted = Some a1 ∧
          findings a1 !! 3 = findings indemnityNoted !! 3) ∧
   (∀ a', dispatch (CheckboxChange (lit "Term: Is the duration clear?"))
            indemnityNoted = Some a' →
          findings a' !! 3 = findings indemnityNoted !! 3)).
Proof.
  split; [by vm_compute|]. split.
  - apply (findings_update_frame indemnityNoted 3
             (NotesChange (lit "Cap missing"))).
    + simpl. lia.
    + right. eexists. reflexivity.
  - apply (findings_update_frame indemnityNoted 3
             (CheckboxChange (lit "Term: Is the duration clear?"))).
    + simpl. lia.
    + left. eexists. reflexivity.
Defined.

(** C10: in every reachable state, the checked collection of each step
    holds each label at most once and only labels of that step's authored
    checklist; a toggle appends the label when it is absent and removes all
    its occurrences when it is present. *)
Theorem checked_nodup_from_checklist a :
  reachable a →
  (∀ i d, findings a !! i = Some d →
     NoDup (checked d) ∧
     ∃ step, steps !! i = Some step ∧ ∀ item, item ∈ checked d → item ∈ checklist step) ∧
  (∀ item,
     let currentList := default [] (checked <$> findings a !! activeStep a) in
     ∃ d, findings (toggleChecklist item a) !! activeStep a = Some d ∧
          if bool_decide (item ∈ currentList)
          then (item ∉ checked d) ∧ checked d = filter (λ i, i ≠ item) currentList
          else checked d = currentList ++ [item]).
Proof.
  intros Hr. destruct (reachable_inv _ Hr) as (_ & _ & Hf). split.
  - intros i d Hd. destruct (Hf i d Hd) as (step & Hstep & Hnd & Hsub). eauto.
  - intros item currentList. simpl. rewrite lookup_insert_eq. eexists.
    split; [done|]. simpl. fold currentList. case_bool_decide; [|done].
    split; [|done]. rewrite list_elem_of_filter. by intros [? _].
Qed.

Lemma checked_nodup_from_checklist_witness :
  (∀ i d, findings termFlagged !! i = Some d →
     NoDup (checked d) ∧
     ∃ step, steps !! i = Some step ∧ ∀ item, item ∈ checked d → item ∈ checklist step) ∧
  (∀ item,
     let currentList :=
       default [] (checked <$> findings termFlagged !! activeStep termFlagged) in
     ∃ d, findings (toggleChecklist item termFlagged) !! activeStep termFlagged
            = Some d ∧
          if bool_decide (item ∈ currentList)
          then (item ∉ checked d) ∧ checked d = filter (λ i, i ≠ item) currentList
          else checked d = currentList ++ [item]).
Proof.
  apply (checked_nodup_from_checklist termFlagged), termFlagged_reachable.
Defined.

(** C2 at a step whose notes are one space and whose checked collection is
    empty: the sidebar shows the dot, although the notes are empty after
    trimming and the report's [hasIssues] is false for the same step. The dot
    tests the notes untrimmed. *)
Theorem whitespace_notes_show_dot :
  run [NotesChange (lit " ")] initialState = Some blankNotes ∧
  findings blankNotes !! 0 = Some {| checked := []; notes := lit " " |} ∧
  trim (lit " ") = [] ∧
  hasFindingsDot (findings blankNotes) 0 = true ∧
  hasIssues (findings blankNotes !! 0) = false ∧
  (∀ f idx, hasFindingsDot f idx = true ↔
     ∃ d, f !! idx = Some d ∧ (checked d ≠ [] ∨ notes d ≠ [])).
Proof.
  split_and!; try by vm_compute.
  intros f idx. unfold hasFindingsDot. destruct (f !! idx) as [d|].
  - rewrite orb_true_iff, !negb_true_iff, Nat.eqb_neq, bool_decide_eq_false.
    rewrite length_zero_iff_nil. split; [eauto|]. by intros (? & [= <-] & ?).
  - split; [done|]. by intros (? & ? & _).
Qed.

(** ** The generated report *)




(** C8: for a step with no findings record, or with no checked item and
    notes that are empty after trimming, the report block is the title line,
    the line "Status: No specific issues flagged." and the separator; none
    of its lines starts with "Flags Identified:" or "Notes:". *)
Theorem no_issues_block a i step :
  steps !! i = Some step →
  findings a !! i = None ∨
  (∃ d, findings a !! i = Some d ∧ checked d = [] ∧ trim (notes d) = []) →
  stepBlock i step (findings a !! i) =
    titleLine i step ++ lit "Status: No specific issues flagged." ++ nl ++
    separator ∧
  lines (stepBlock i step (findings a !! i)) =
    [ lit "[" ++ numberToString (i + 1) ++ lit "] " ++ toUpperCase (title step);
      lit "Status: No specific issues flagged.";
      []; lit "-----------------------------------"; []; [] ] ∧
  Forall (λ l, ¬ lit "Flags Identified:" `prefix_of` l ∧
               ¬ lit "Notes:" `prefix_of` l)
         (lines (stepBlock i step (findings a !! i))) ∧
  (∀ date, ∃ before after,
     generateReport date a = before ++ stepBlock i step (findings a !! i) ++ after).
Proof.
  intros Hstep Hnone.
  assert (stepBlock i step (findings a !! i) =
    titleLine i step ++ lit "Status: No specific issues flagged." ++ nl ++
    separator) as Hblock.
  { unfold stepBlock.
    replace (hasIssues (findings a !! i)) with false; [by rewrite <- app_assoc|].
    destruct Hnone as [-> | (d & -> & Hc & Ht)]; [done|].
    unfold hasIssues. rewrite Hc, Ht. simpl.
    by destruct (bool_decide (notes d = [])). }
  split_and!; [done| | |intros; by apply generateReport_block].
  - rewrite Hblock. clear Hblock Hnone.
    do 6 (destruct i as [|i]; [simplify_eq/=; by vm_compute|]). done.
  - rewrite Hblock. clear Hblock Hnone.
    do 6 (destruct i as [|i];
      [simplify_eq/=; apply (bool_decide_unpack _); by vm_compute|]).
    done.
Qed.

Lemma no_issues_block_witness :
  stepBlock 0 controlClauses (findings blankNotes !! 0) =
    titleLine 0 controlClauses ++ lit "Status: No specific issues flagged." ++ nl ++
    separator ∧
  lines (stepBlock 0 controlClauses (findings blankNotes !! 0)) =
    [ lit "[1] CONTROL CLAUSES";
      lit "Status: No specific issues flagged.";
      []; lit "-----------------------------------"; []; [] ] ∧
  Forall (λ l, ¬ lit "Flags Identified:" `prefix_of` l ∧
               ¬ lit "Notes:" `prefix_of` l)
         (lines (stepBlock 0 controlClauses (findings blankNotes !! 0))) ∧
  (∀ date, ∃ before after,
     generateReport date blankNotes =
       before ++ stepBlock 0 controlClauses (findings blankNotes !! 0) ++ after).
Proof.
  refine (no_issues_block blankNotes 0 controlClauses eq_refl _).
  right. eexists. split; [reflexivity|]. split; reflexivity.
Defined.

(** ** The timer display *)

Example formatTime_samples :
  formatTime 65 = lit "1:05" ∧ formatTime 9 = lit "0:09" ∧
  formatTime 0 = lit "0:00" ∧ formatTime 125 = lit "2:05".
Proof. by vm_compute. Qed.

Lemma lit_inj s1 s2 : lit s1 = lit s2 → s1 = s2.
Proof.
  unfold lit. intros H.
  rewrite <- (String.string_of_list_ascii_of_string s1),
          <- (String.string_of_list_ascii_of_string s2).
  f_equal. revert H. generalize (String.list_ascii_of_string s1).
  generalize (String.list_ascii_of_string s2).
  intros l2 l1. revert l2. induction l1 as [|c1 l1 IH]; intros [|c2 l2] H;
    simplify_eq/=; [done|].
  f_equal; [|by apply IH].
  rewrite <- (ascii_N_embedding c1), <- (ascii_N_embedding c2). congruence.
Qed.

Lemma numberToString_inj n m : numberToString n = numberToString m → n = m.
Proof.
  unfold numberToString. intros H%lit_inj.
  assert (Nat.to_uint n = Nat.to_uint m) as Hu.
  { pose proof (NilEmpty.usu (Nat.to_uint n)) as Hn.
    pose proof (NilEmpty.usu (Nat.to_uint m)) as Hm. congruence. }
  by apply DecimalNat.Unsigned.to_uint_inj.
Qed.

(** The seconds field is always written with two digits. *)
Lemma seconds_two_digits k :
  k < 60 →
  (if (Z.of_nat k <? 10)%Z then lit "0" else []) ++ numberToString k =
    [N.of_nat (48 + k / 10); N.of_nat (48 + k mod 10)].
Proof.
  intros Hk.
  assert (Forall (λ k, (if (Z.of_nat k <? 10)%Z then lit "0" else []) ++
                       numberToString k =
                       [N.of_nat (48 + k / 10); N.of_nat (48 + k mod 10)])
                 (seq 0 60)) as H.
  { apply (bool_decide_unpack _). by vm_compute. }
  rewrite Forall_forall in H. apply H, elem_of_seq. lia.
Qed.

Lemma formatTime_nat (n : nat) :
  formatTime (Z.of_nat n) =
    numberToString (n / 60) ++ lit ":" ++
    [ N.of_nat (48 + (n mod 60) / 10); N.of_nat (48 + (n mod 60) mod 10) ].
Proof.
  unfold formatTime. change 60%Z with (Z.of_nat 60).
  rewrite Z.rem_mod_nonneg, <- Nat2Z.inj_div, <- Nat2Z.inj_mod by lia.
  assert (∀ k, integerToString (Z.of_nat k) = numberToString k) as Hk.
  { intros k. unfold integerToString.
    destruct (Z.of_nat k) eqn:Hz; [| |lia]; rewrite <- Hz; by rewrite Nat2Z.id. }
  rewrite !Hk. do 2 f_equal.
  apply seconds_two_digits, Nat.mod_upper_bound. lia.
Qed.

(** X1: a remaining time that is not negative is displayed as the whole
    minutes, a colon and the seconds of the minute in exactly two digits. *)
Theorem formatTime_minutes_seconds (seconds : Z) :
  (0 ≤ seconds)%Z →
  formatTime seconds =
    numberToString (Z.to_nat (seconds / 60)) ++ lit ":" ++
    [ (48 + Z.to_N ((seconds mod 60) / 10))%N;
      (48 + Z.to_N ((seconds mod 60) mod 10))%N ].
Proof.
  intros Hs. rewrite <- (Z2Nat.id seconds) at 1 by lia. rewrite formatTime_nat.
  pose proof (Z.mod_pos_bound seconds 60 ltac:(lia)) as Hb.
  f_equal; [by rewrite Z2Nat.inj_div by lia|]. f_equal.
  rewrite !Nat2N.inj_add, <- !Z_nat_N.
  rewrite !Z2Nat.inj_mod, !Z2Nat.inj_div, !Z2Nat.inj_mod by lia.
  done.
Qed.

Lemma formatTime_minutes_seconds_witness :
  formatTime 65 =
    numberToString (Z.to_nat (65 / 60)) ++ lit ":" ++
    [ (48 + Z.to_N ((65 mod 60) / 10))%N; (48 + Z.to_N ((65 mod 60) mod 10))%N ].
Proof. apply (formatTime_minutes_seconds 65). lia. Defined.

(** X2: two remaining times that are not negative and are displayed alike
    are equal. *)
Theorem formatTime_inj (s1 s2 : Z) :
  (0 ≤ s1)%Z → (0 ≤ s2)%Z → formatTime s1 = formatTime s2 → s1 = s2.
Proof.
  intros H1 H2. rewrite <- (Z2Nat.id s1), <- (Z2Nat.id s2) by lia.
  generalize (Z.to_nat s1) (Z.to_nat s2). clear. intros n1 n2.
  rewrite !formatTime_nat, !(app_assoc _ (lit ":")).
  intros [Hm Hd]%app_inj_2; [|done].
  apply app_inj_2 in Hm as [Hm%numberToString_inj _]; [|done].
  assert (∀ x1 y1 x2 y2 : N, [x1; y1] = [x2; y2] → x1 = x2 ∧ y1 = y2) as Hinj
    by (by intros ???? [= -> ->]).
  apply Hinj in Hd as [Hq%Nat2N.inj Hr%Nat2N.inj]. f_equal.
  rewrite (Nat.div_mod_eq n1 60), (Nat.div_mod_eq n2 60).
  rewrite (Nat.div_mod_eq (n1 mod 60) 10), (Nat.div_mod_eq (n2 mod 60) 10).
  lia.
Qed.

Lemma formatTime_inj_witness :
  formatTime 59 = formatTime (119 - 60) ∧ (59 = 119 - 60)%Z.
Proof.
  split; [reflexivity|].
  apply (formatTime_inj 59 (119 - 60)); [lia|lia|reflexivity].
Defined.

(** ** The badge and the Next button *)

(** X3: the "Minute" badge of every step names the minutes of the review
    that the step's budget covers, counted from the budgets of the steps
    before it: one minute for a budget of 60 seconds, a range otherwise. *)
Theorem minuteLabel_matches_budget (i : nat) (step : StepDefinition) :
  steps !! i = Some step →
  let first := (elapsedBefore i / 60 + 1)%Z in
  let last := ((elapsedBefore i + duration step) / 60)%Z in
  (elapsedBefore i mod 60 = 0)%Z ∧ (duration step mod 60 = 0)%Z ∧
  minuteLabel i =
    if (first =? last)%Z then integerToString first
    else integerToString first ++ lit "-" ++ integerToString last.
Proof.
  intros Hstep.
  do 6 (destruct i as [|i]; [simplify_eq/=; by vm_compute|]).
  done.
Qed.

Lemma minuteLabel_matches_budget_witness :
  (elapsedBefore 1 mod 60 = 0)%Z ∧ (duration moneyObligations mod 60 = 0)%Z ∧
  minuteLabel 1 = lit "2-3".
Proof. exact (minuteLabel_matches_budget 1 moneyObligations eq_refl). Defined.

(** X4: on a step of the catalogue the Next button reads "Finish Review"
    exactly when pressing it opens the summary view, and "Next Step" exactly
    when pressing it moves one step on. *)
Theorem nextLabel_announces_next (a : App) :
  reviewComplete a = false → activeStep a < length steps →
  ∃ a', dispatch Next a = Some a' ∧
    (nextLabel a = lit "Finish Review" ↔ reviewComplete a' = true) ∧
    (nextLabel a = lit "Next Step" ↔ activeStep a' = activeStep a + 1).
Proof.
  intros Hview Hlt. simpl in Hlt.
  assert (enabled Next a = true) as Hen by (simpl; by rewrite Hview).
  destruct (steps_lookup (activeStep (handleNext a))) as (step & Hstep & _).
  { unfold handleNext. case_match; simpl; [|done].
    rewrite Nat.ltb_lt in *. simpl in *. lia. }
  destruct (dispatch_spec Next a _ step Hen eq_refl Hstep)
    as (a' & Hd & Ha & _ & Hc & _).
  exists a'. split; [done|]. rewrite Ha, Hc. unfold nextLabel, handleNext.
  simpl. destruct (Nat.eqb_spec (activeStep a) 5) as [H5|H5].
  - rewrite H5. simpl. split; [done|]. split; [done|lia].
  - replace (activeStep a <? 5) with true by (symmetry; apply Nat.ltb_lt; lia).
    simpl. rewrite Hview. split; [split; [|done]|done].
    intros [=]%(f_equal length).
Qed.

Lemma nextLabel_announces_next_witness :
  ∃ a', dispatch Next lastStep = Some a' ∧
    (nextLabel lastStep = lit "Finish Review" ↔ reviewComplete a' = true) ∧
    (nextLabel lastStep = lit "Next Step" ↔ activeStep a' = activeStep lastStep + 1).
Proof.
  apply (nextLabel_announces_next lastStep); [reflexivity|simpl; lia].
Defined.

(** ** More on the render loop *)

Lemma App_ext (a b : App) :
  activeStep a = activeStep b → isTimerRunning a = isTimerRunning b →
  timeLeft a = timeLeft b → findings a = findings b →
  reviewComplete a = reviewComplete b → contractName a = contractName b →
  mobileMenuOpen a = mobileMenuOpen b → interval a = interval b → a = b.
Proof. destruct a, b. simpl. by intros -> -> -> -> -> -> -> ->. Qed.

Lemma settles_unique p a step a1 a2 :
  settles p a step a1 → settles p a step a2 → a1 = a2.
Proof.
  intros (H1 & H2 & H3 & H4 & H5) (K1 & K2 & K3 & K4 & K5).
  apply App_ext; try congruence;
    repeat case_decide; destruct_and?; congruence.
Qed.

(** The effects write the timer and the menu only. *)
Lemma commit_preserves fuel prev a a' :
  commit fuel prev a = Some a' →
  activeStep a' = activeStep a ∧ findings a' = findings a ∧
  reviewComplete a' = reviewComplete a ∧ contractName a' = contractName a.
Proof.
  revert prev a. induction fuel as [|fuel IH]; intros prev a H; [done|].
  rewrite commit_unfold in H. case_match; [|by simplify_eq].
  apply bind_Some in H as (a2 & H2 & H).
  apply IH in H as (-> & -> & -> & ->). clear IH.
  cbv zeta in H2. unfold stepEffect, timerEffect in H2.
  repeat (case_match; simplify_eq/=); try done.
  all: by destruct (steps !! activeStep a); simplify_eq/=.
Qed.

Lemma dispatch_preserves e a a1 a' :
  handler e a = Some a1 → dispatch e a = Some a' →
  activeStep a' = activeStep a1 ∧ findings a' = findings a1 ∧
  reviewComplete a' = reviewComplete a1 ∧ contractName a' = contractName a1.
Proof.
  intros Hh Hd. unfold dispatch in Hd. destruct (enabled e a); [|done].
  rewrite Hh in Hd. cbn -[commit] in Hd. by eapply commit_preserves.
Qed.

(** X5: the render loop never reaches React's limit of nested updates: with
    the active step in the catalogue, it comes to rest within three renders,
    and more fuel gives the same state. *)
Theorem commit_three_renders fuel p a :
  3 ≤ fuel → activeStep a < length steps →
  is_Some (commit 3 (Some p) a) ∧
  commit fuel (Some p) a = commit 3 (Some p) a.
Proof.
  intros Hfuel Hlt. destruct (steps_lookup _ Hlt) as (step & Hstep & _).
  destruct (commit_spec 3 p a step) as (a3 & H3 & Hs3); [lia|done|].
  destruct (commit_spec fuel p a step) as (a' & H' & Hs'); [lia|done|].
  rewrite H3, H'. split; [eauto|]. f_equal. by eapply settles_unique.
Qed.

Lemma commit_three_renders_witness :
  is_Some (commit 3 (Some timerBusy) (setActiveStep 4 timerBusy)) ∧
  commit nestedUpdateLimit (Some timerBusy) (setActiveStep 4 timerBusy) =
    commit 3 (Some timerBusy) (setActiveStep 4 timerBusy).
Proof.
  apply (commit_three_renders nestedUpdateLimit timerBusy (setActiveStep 4 timerBusy)).
  - unfold nestedUpdateLimit. lia.
  - simpl. lia.
Defined.

(** X6: in a reachable state every event whose control is on screen (or
    whose interval is live) is handled without a thrown error, and leaves
    the active step within the catalogue, [timeLeft] between 0 and the
    active step's budget, and the summary view on the last step only. *)
Theorem reachable_no_error_in_range a e :
  reachable a → enabled e a = true →
  ∃ a' step, dispatch e a = Some a' ∧ steps !! activeStep a' = Some step ∧
    (0 ≤ timeLeft a' ≤ duration step)%Z ∧
    (reviewComplete a' = true → activeStep a' = length steps - 1).
Proof.
  intros Hr Hen. pose proof (reachable_inv _ Hr) as Hinv.
  destruct (dispatch_total e a Hinv Hen) as [a' Hd]. exists a'.
  destruct (inv_dispatch e a a' Hinv Hd) as ((? & _ & _ & step & ? & ?) & Hv & _).
  exists step. split_and!; [done|done|lia|lia|done].
Qed.

Lemma reachable_no_error_in_range_witness :
  ∃ a' step, dispatch ResetTimer lastSecond = Some a' ∧
    steps !! activeStep a' = Some step ∧
    (0 ≤ timeLeft a' ≤ duration step)%Z ∧
    (reviewComplete a' = true → activeStep a' = length steps - 1).
Proof.
  apply (reachable_no_error_in_range lastSecond ResetTimer).
  - apply lastSecond_reachable.
  - reflexivity.
Defined.

(** ** More on the timer *)

Lemma tick_spec a :
  inv a → interval a = true →
  dispatch Tick a =
    Some (mkApp (activeStep a) (negb (timeLeft a - 1 =? 0)%Z) (timeLeft a - 1)
            (findings a) (reviewComplete a) (contractName a)
            (mobileMenuOpen a) (negb (timeLeft a - 1 =? 0)%Z)).
Proof.
  intros ((Hnn & Hint & Hz & step & Hstep & Hle) & _ & _) Hi.
  rewrite Hi in Hint. symmetry in Hint.
  apply andb_true_iff in Hint as [Hrun Hpos%Z.ltb_lt].
  destruct (dispatch_spec Tick a (tick a) step Hi eq_refl Hstep)
    as (a' & -> & Ha & Hf & Hc & Hn & Hs).
  f_equal. simpl in *. rewrite decide_True in Hs by done.
  destruct Hs as (Ht & Hm & Hs).
  rewrite decide_False in Hs by (unfold timerDeps; simpl; intros [=]; lia).
  destruct Hs as [Hr Hl]. rewrite Hrun in Hr, Hl. simpl in Hr, Hl.
  apply App_ext; simpl; try done.
  rewrite Hl. destruct (Z.eqb_spec (timeLeft a - 1) 0) as [->|]; [done|].
  apply Z.ltb_lt. lia.
Qed.

(** X7: with the timer running at [t] seconds in a reachable state, any
    [n ≤ t] ticks in a row are taken and leave [t - n] seconds and nothing
    else changed; the timer still runs unless it reached 0, where it is
    stopped and no further tick occurs. *)
Theorem countdown a n :
  reachable a → isTimerRunning a = true → (Z.of_nat n ≤ timeLeft a)%Z →
  ∃ a', run (replicate n Tick) a = Some a' ∧
    a' = mkApp (activeStep a) (negb (timeLeft a - Z.of_nat n =? 0)%Z)
           (timeLeft a - Z.of_nat n) (findings a) (reviewComplete a)
           (contractName a) (mobileMenuOpen a)
           (negb (timeLeft a - Z.of_nat n =? 0)%Z) ∧
    (timeLeft a' = 0%Z → dispatch Tick a' = None).
Proof.
  intros Hr. revert a Hr. induction n as [|n IH]; intros a Hr Hrun Hn.
  - pose proof (reachable_inv _ Hr) as ((Hnn & Hint & Hz & _) & _ & _).
    assert (timeLeft a ≠ 0%Z) as Hne by (intros H0; by rewrite Hz in Hrun).
    exists a. split; [done|]. split.
    + apply App_ext; simpl; rewrite ?Z.sub_0_r; try done.
      * by rewrite (proj2 (Z.eqb_neq _ _) Hne).
      * rewrite Hint, Hrun, (proj2 (Z.eqb_neq _ _) Hne). simpl.
        apply Z.ltb_lt. lia.
    + done.
  - pose proof (reachable_inv _ Hr) as Hinv.
    pose proof Hinv as ((Hnn & Hint & Hz & _) & _ & _).
    assert (interval a = true) as Hi.
    { rewrite Hint, Hrun. simpl. apply Z.ltb_lt. lia. }
    pose proof (tick_spec a Hinv Hi) as Ht.
    set (a1 := mkApp _ _ _ _ _ _ _ _) in Ht.
    assert (reachable a1) as Hr1 by (by eapply reachable_dispatch).
    simpl. rewrite Ht. simpl.
    destruct n as [|n].
    + exists a1. split; [done|]. split.
      * by change (Z.of_nat 1) with 1%Z.
      * intros H0. unfold dispatch. simpl. simpl in H0. rewrite H0. done.
    + destruct (IH a1 Hr1) as (a' & Hrun' & -> & Hlast).
      * simpl. apply negb_true_iff, Z.eqb_neq. lia.
      * simpl. lia.
      * eexists. split; [exact Hrun'|]. split; [|done]. simpl.
        by replace (timeLeft a - 1 - Z.of_nat (S n))%Z
          with (timeLeft a - Z.of_nat (S (S n)))%Z by lia.
Qed.

Lemma countdown_witness :
  ∃ a', run (replicate 1 Tick) lastSecond = Some a' ∧
    a' = mkApp 0 false 0 ∅ false [] false false ∧
    (timeLeft a' = 0%Z → dispatch Tick a' = None).
Proof.
  apply (countdown lastSecond 1).
  - apply lastSecond_reachable.
  - reflexivity.
  - simpl. lia.
Defined.

(** X8: in a reachable review view the reset button stops the timer at the
    active step's full budget, clears the interval and changes nothing
    else. *)
Theorem resetTimer_full_budget a step :
  reachable a → reviewComplete a = false →
  steps !! activeStep a = Some step →
  dispatch ResetTimer a =
    Some (mkApp (activeStep a) false (duration step) (findings a)
            (reviewComplete a) (contractName a) (mobileMenuOpen a) false).
Proof.
  intros Hr Hview Hstep.
  pose proof (reachable_inv _ Hr) as ((Hnn & Hint & Hz & _) & _ & _).
  assert (enabled ResetTimer a = true) as Hen by (simpl; by rewrite Hview).
  assert (handler ResetTimer a =
          Some (setTimeLeft (duration step) (setIsTimerRunning false a))) as Hh.
  { simpl. unfold resetTimer. by rewrite Hstep. }
  destruct (dispatch_spec ResetTimer a _ step Hen Hh Hstep)
    as (a' & -> & Ha & Hf & Hc & Hn & Hs).
  f_equal. simpl in *. rewrite decide_True in Hs by done.
  destruct Hs as (Ht & Hm & Hs). apply App_ext; simpl; try done.
  - case_decide; destruct Hs as [Hs _]; by rewrite Hs.
  - case_decide as Hd; destruct Hs as [_ Hs]; rewrite Hs; [|done].
    simpl. unfold timerDeps in Hd. simpl in Hd. rewrite Hint.
    by replace (isTimerRunning a) with false by congruence.
Qed.

Lemma resetTimer_full_budget_witness :
  dispatch ResetTimer lastSecond =
    Some (mkApp 0 false 60 ∅ false [] false false).
Proof.
  apply (resetTimer_full_budget lastSecond controlClauses).
  - apply lastSecond_reachable.
  - reflexivity.
  - reflexivity.
Defined.

(** X9: in a reachable review view the start/pause button does nothing at
    0 seconds; above 0 it flips the timer, keeps [timeLeft], and pressing it
    again gives back the state before the first press. *)
Theorem toggleTimer_pause_resume a :
  reachable a → reviewComplete a = false →
  if decide (timeLeft a = 0%Z) then dispatch ToggleTimer a = Some a
  else ∃ a1, dispatch ToggleTimer a = Some a1 ∧
         isTimerRunning a1 = negb (isTimerRunning a) ∧
         timeLeft a1 = timeLeft a ∧
         dispatch ToggleTimer a1 = Some a.
Proof.
  intros Hr Hview.
  pose proof (reachable_inv _ Hr) as ((Hnn & Hint & Hz & step & Hstep & _) & _ & _).
  assert (enabled ToggleTimer a = true) as Hen by (simpl; by rewrite Hview).
  destruct (dispatch_spec ToggleTimer a _ step Hen eq_refl Hstep)
    as (a1 & Hd1 & Ha & Hf & Hc & Hn & Hs).
  simpl in *. rewrite decide_True in Hs by done.
  destruct Hs as (Ht & Hm & Hs).
  rewrite decide_False in Hs
    by (unfold timerDeps; simpl; intros [=]; by destruct (isTimerRunning a)).
  destruct Hs as [Hr1 Hi1]. case_decide as H0.
  - rewrite Hd1. f_equal. specialize (Hz H0). rewrite H0 in *.
    rewrite andb_false_r in Hr1, Hi1, Hint.
    apply App_ext; congruence.
  - exists a1. rewrite (proj2 (Z.eqb_neq _ _) H0), andb_true_r in Hr1.
    split_and!; [done..|].
    assert (enabled ToggleTimer a1 = true) as Hen1 by (simpl; by rewrite Hc, Hview).
    rewrite <- Ha in Hstep.
    destruct (dispatch_spec ToggleTimer a1 _ step Hen1 eq_refl Hstep)
      as (a2 & -> & Ha2 & Hf2 & Hc2 & Hn2 & Hs2).
    f_equal. simpl in *. rewrite decide_True in Hs2 by done.
    destruct Hs2 as (Ht2 & Hm2 & Hs2).
    rewrite decide_False in Hs2
      by (unfold timerDeps; simpl; intros [=]; by destruct (isTimerRunning a1)).
    destruct Hs2 as [Hr2 Hi2]. rewrite Ht, (proj2 (Z.eqb_neq _ _) H0) in Hr2.
    rewrite Hr1, negb_involutive, andb_true_r in Hr2.
    rewrite Hr1, negb_involutive, Ht in Hi2.
    apply App_ext; congruence.
Qed.

Lemma toggleTimer_pause_resume_witness :
  ∃ a1, dispatch ToggleTimer lastSecond = Some a1 ∧
        isTimerRunning a1 = negb (isTimerRunning lastSecond) ∧
        timeLeft a1 = timeLeft lastSecond ∧
        dispatch ToggleTimer a1 = Some lastSecond.
Proof.
  apply (toggleTimer_pause_resume lastSecond).
  - apply lastSecond_reachable.
  - reflexivity.
Defined.

(** ** More on navigation *)

Lemma goto_spec e a M step :
  enabled e a = true → handler e a = Some (setActiveStep M a) →
  M ≠ activeStep a → steps !! M = Some step →
  ∃ a', dispatch e a = Some a' ∧ activeStep a' = M ∧
    timeLeft a' = duration step ∧ isTimerRunning a' = false ∧
    mobileMenuOpen a' = false ∧ findings a' = findings a ∧
    contractName a' = contractName a ∧ reviewComplete a' = reviewComplete a.
Proof.
  intros Hen Hh Hne Hstep.
  destruct (dispatch_spec e a _ step Hen Hh Hstep)
    as (a' & Hd & Ha & Hf & Hc & Hn & Hs).
  exists a'. simpl in *. rewrite decide_False in Hs by done.
  by destruct Hs as (? & ? & ? & _).
Qed.

Lemma next_spec a M step :
  reviewComplete a = false → M = activeStep a + 1 → steps !! M = Some step →
  enabled Next a = true ∧ handler Next a = Some (setActiveStep M a).
Proof.
  intros Hview -> Hstep%lookup_lt_Some. simpl in *. rewrite Hview.
  split; [done|]. unfold handleNext.
  by replace (activeStep a <? length steps - 1) with true
    by (symmetry; apply Nat.ltb_lt; simpl; lia).
Qed.

Lemma back_spec a M :
  reviewComplete a = false → activeStep a = M + 1 →
  enabled Back a = true ∧ handler Back a = Some (setActiveStep M a).
Proof.
  intros Hview HM. simpl. rewrite Hview. simpl.
  split; [apply negb_true_iff, Nat.eqb_neq; lia|]. unfold handleBack.
  replace (0 <? activeStep a) with true by (symmetry; apply Nat.ltb_lt; lia).
  do 2 f_equal. lia.
Qed.

(** X10: Next followed by Back, and Back followed by Next, come back to
    the step they left, with its findings, the contract name and the view
    as they were; the timer is not restored: it is stopped at the step's
    full budget, and the mobile menu is closed. *)
Theorem next_back_round_trip a step e1 e2 :
  reachable a → reviewComplete a = false →
  steps !! activeStep a = Some step →
  (e1 = Next ∧ e2 = Back ∧ activeStep a + 1 < length steps) ∨
  (e1 = Back ∧ e2 = Next ∧ 0 < activeStep a) →
  run [e1; e2] a =
    Some (mkApp (activeStep a) false (duration step) (findings a) false
            (contractName a) false false).
Proof.
  intros Hr Hview Hstep He.
  pose proof (reachable_inv _ Hr) as ((_ & Hint & _) & _ & _).
  assert (∃ M stepM, M ≠ activeStep a ∧ steps !! M = Some stepM ∧
            enabled e1 a = true ∧ handler e1 a = Some (setActiveStep M a) ∧
            ∀ a1, activeStep a1 = M → reviewComplete a1 = false →
              enabled e2 a1 = true ∧
              handler e2 a1 = Some (setActiveStep (activeStep a) a1))
    as (M & stepM & Hne & HstepM & Hen1 & Hh1 & H2).
  { destruct He as [(-> & -> & Hlt)|(-> & -> & Hpos)].
    - destruct (steps_lookup _ Hlt) as (stepM & HstepM & _).
      destruct (next_spec a _ stepM Hview eq_refl HstepM) as [? ?].
      exists (activeStep a + 1), stepM.
      split; [lia|]. do 3 (split; [done|]).
      intros a1 Ha1 Hv1. by apply back_spec.
    - destruct (steps_lookup (activeStep a - 1)) as (stepM & HstepM & _).
      { apply lookup_lt_Some in Hstep. lia. }
      destruct (back_spec a (activeStep a - 1) Hview ltac:(lia)) as [? ?].
      exists (activeStep a - 1), stepM.
      split; [lia|]. do 3 (split; [done|]).
      intros a1 Ha1 Hv1. eapply next_spec; [done|lia|done]. }
  destruct (dispatch_spec e1 a _ stepM Hen1 Hh1 HstepM)
    as (a1 & Hd1 & Ha1 & Hf1 & Hc1 & Hn1 & Hs1).
  simpl in *. rewrite decide_False in Hs1 by done.
  destruct Hs1 as (Ht1 & Hr1 & Hm1 & Hi1).
  destruct (H2 a1 Ha1) as [Hen2 Hh2]; [congruence|].
  destruct (dispatch_spec e2 a1 _ step Hen2 Hh2 Hstep)
    as (a2 & Hd2 & Ha2 & Hf2 & Hc2 & Hn2 & Hs2).
  rewrite Hd1. simpl. rewrite Hd2. simpl. f_equal.
  simpl in *. rewrite decide_False in Hs2 by congruence.
  destruct Hs2 as (Ht2 & Hr2 & Hm2 & Hi2).
  apply App_ext; simpl; try congruence.
  rewrite Hi2. case_decide as Hd; [|done]. rewrite Hi1.
  case_decide as Hd'; [|done]. destruct Hd' as [_ Hd'].
  unfold timerDeps in Hd'. simpl in Hd'. rewrite Hint.
  by replace (isTimerRunning a) with false by congruence.
Qed.

Lemma next_back_round_trip_witness :
  run [Next; Back] lastSecond =
    Some (mkApp 0 false 60 ∅ false [] false false).
Proof.
  apply (next_back_round_trip lastSecond controlClauses Next Back).
  - apply lastSecond_reachable.
  - reflexivity.
  - reflexivity.
  - left. split; [reflexivity|]. split; [reflexivity|]. simpl. lia.
Defined.

(** X11: Next on the last step only switches to the summary view: the
    timer and its interval go on as they were, and "Return to Review"
    gives back the very state the review was left in. *)
Theorem finish_and_return a :
  reviewComplete a = false → activeStep a = length steps - 1 →
  dispatch Next a = Some (setReviewComplete true a) ∧
  dispatch ReturnToReview (setReviewComplete true a) = Some a.
Proof.
  intros Hview H5. unfold dispatch, nestedUpdateLimit. cbn -[commit].
  rewrite Hview. unfold handleNext. rewrite H5. cbn -[commit].
  rewrite !commit_stable by done. split; [done|].
  f_equal. destruct a. simpl in *. by subst.
Qed.

Lemma finish_and_return_witness :
  dispatch Next lastStepRunning = Some busySummary ∧
  dispatch ReturnToReview busySummary = Some lastStepRunning.
Proof. apply (finish_and_return lastStepRunning); reflexivity. Defined.

(** ** More on findings *)

(** An event that leaves the step and the timer alone runs no effect. *)
Lemma dispatch_edit e a a1 :
  enabled e a = true → handler e a = Some a1 →
  timerDeps a = timerDeps a1 → stepDeps a = stepDeps a1 →
  dispatch e a = Some a1.
Proof.
  intros Hen Hh Ht Hs. unfold dispatch, nestedUpdateLimit.
  rewrite Hen, Hh. cbn -[commit]. by apply commit_stable.
Qed.

(** X12: a click on a checkbox of the review view flips that checkbox,
    whatever the stored collection holds, and leaves every other checkbox
    and the notes field as they were. *)
Theorem checkbox_flips item a :
  enabled (CheckboxChange item) a = true →
  ∃ a', dispatch (CheckboxChange item) a = Some a' ∧
    isChecked a' item = negb (isChecked a item) ∧
    (∀ other, other ≠ item → isChecked a' other = isChecked a other) ∧
    notesValue a' = notesValue a.
Proof.
  intros Hen. exists (toggleChecklist item a).
  split; [by apply dispatch_edit|].
  unfold isChecked, notesValue, toggleChecklist. simpl.
  rewrite lookup_insert_eq. simpl.
  set (l := default [] (checked <$> findings a !! activeStep a)).
  assert (match findings a !! activeStep a with
          | Some d => bool_decide (item ∈ checked d) | None => false end
          = bool_decide (item ∈ l)) as ->.
  { unfold l. by destruct (findings a !! activeStep a). }
  split_and!; [| |done].
  - destruct (decide (item ∈ l)) as [Hin|Hin].
    + rewrite !(bool_decide_eq_true_2 (item ∈ l) Hin). simpl.
      apply bool_decide_eq_false. rewrite list_elem_of_filter. by intros [? _].
    + rewrite !(bool_decide_eq_false_2 (item ∈ l) Hin). simpl.
      apply bool_decide_eq_true. rewrite elem_of_app, list_elem_of_singleton. eauto.
  - intros other Hne.
    assert (match findings a !! activeStep a with
            | Some d => bool_decide (other ∈ checked d) | None => false end
            = bool_decide (other ∈ l)) as ->.
    { unfold l. by destruct (findings a !! activeStep a). }
    apply bool_decide_ext. destruct (decide (item ∈ l)) as [Hin|Hin].
    + rewrite (bool_decide_eq_true_2 (item ∈ l) Hin).
      rewrite list_elem_of_filter. intuition congruence.
    + rewrite (bool_decide_eq_false_2 (item ∈ l) Hin).
      rewrite elem_of_app, list_elem_of_singleton. intuition congruence.
Qed.

Lemma checkbox_flips_witness :
  ∃ a', dispatch (CheckboxChange (lit "Term: Is the duration clear?"))
          liabilityThenTerm = Some a' ∧
    isChecked a' (lit "Term: Is the duration clear?") =
      negb (isChecked liabilityThenTerm (lit "Term: Is the duration clear?")) ∧
    (∀ other, other ≠ lit "Term: Is the duration clear?" →
       isChecked a' other = isChecked liabilityThenTerm other) ∧
    notesValue a' = notesValue liabilityThenTerm.
Proof.
  apply (checkbox_flips (lit "Term: Is the duration clear?") liabilityThenTerm).
  by vm_compute.
Defined.

(** X13: two clicks on the same checkbox restore every checkbox and the
    notes field, but not always the stored collection: a label that was
    checked ends up last in it. *)
Theorem checkbox_double_click item a :
  enabled (CheckboxChange item) a = true →
  let l := default [] (checked <$> findings a !! activeStep a) in
  ∃ a', run [CheckboxChange item; CheckboxChange item] a = Some a' ∧
    (∀ x, isChecked a' x = isChecked a x) ∧
    notesValue a' = notesValue a ∧
    checked <$> findings a' !! activeStep a' =
      Some (filter (λ i, i ≠ item) l ++
            if bool_decide (item ∈ l) then [item] else []).
Proof.
  intros Hen l.
  assert (enabled (CheckboxChange item) (toggleChecklist item a) = true) as Hen'
    by done.
  exists (toggleChecklist item (toggleChecklist item a)). split.
  { simpl. rewrite (dispatch_edit _ a (toggleChecklist item a)) by done.
    simpl. by rewrite (dispatch_edit _ _ (toggleChecklist item (toggleChecklist item a))). }
  unfold isChecked, notesValue, toggleChecklist. simpl.
  rewrite !lookup_insert_eq. simpl. fold l.
  assert (∀ x, match findings a !! activeStep a with
          | Some d => bool_decide (x ∈ checked d) | None => false end
          = bool_decide (x ∈ l)) as Hl.
  { intros x. unfold l. by destruct (findings a !! activeStep a). }
  assert ((if bool_decide (item ∈ (if bool_decide (item ∈ l)
                                    then filter (λ i, i ≠ item) l
                                    else l ++ [item]))
           then filter (λ i, i ≠ item)
                  (if bool_decide (item ∈ l) then filter (λ i, i ≠ item) l
                   else l ++ [item])
           else (if bool_decide (item ∈ l) then filter (λ i, i ≠ item) l
                 else l ++ [item]) ++ [item])
          = filter (λ i, i ≠ item) l ++
            if bool_decide (item ∈ l) then [item] else []) as ->.
  { destruct (decide (item ∈ l)) as [Hin|Hin].
    - rewrite !(bool_decide_eq_true_2 (item ∈ l) Hin).
      rewrite bool_decide_eq_false_2; [done|].
      rewrite list_elem_of_filter. by intros [? _].
    - rewrite !(bool_decide_eq_false_2 (item ∈ l) Hin).
      rewrite bool_decide_eq_true_2
        by (rewrite elem_of_app, list_elem_of_singleton; eauto).
      rewrite filter_app, filter_cons_False, filter_nil by (by intros ?).
      done. }
  split_and!; [|done|done].
  intros x. rewrite Hl. apply bool_decide_ext.
  rewrite elem_of_app, list_elem_of_filter.
  destruct (decide (item ∈ l)) as [Hin|Hin].
  - rewrite (bool_decide_eq_true_2 (item ∈ l) Hin), list_elem_of_singleton.
    destruct (decide (x = item)); intuition congruence.
  - rewrite (bool_decide_eq_false_2 (item ∈ l) Hin), elem_of_nil.
    destruct (decide (x = item)); intuition congruence.
Qed.

Lemma checkbox_double_click_witness :
  ∃ a', run [CheckboxChange (lit "Liability: Is it capped? Are we exposed?");
             CheckboxChange (lit "Liability: Is it capped? Are we exposed?")]
          liabilityThenTerm = Some a' ∧
    (∀ x, isChecked a' x = isChecked liabilityThenTerm x) ∧
    notesValue a' = notesValue liabilityThenTerm ∧
    checked <$> findings a' !! activeStep a' =
      Some [lit "Term: Is the duration clear?";
            lit "Liability: Is it capped? Are we exposed?"].
Proof.
  apply (checkbox_double_click (lit "Liability: Is it capped? Are we exposed?")
           liabilityThenTerm).
  by vm_compute.
Defined.

(** X14: typing in the notes field stores the text as typed, untrimmed, and
    leaves the checkboxes alone; of two edits in a row only the last one
    shows in the resulting state. *)
Theorem notes_last_edit_wins t1 t2 a :
  reviewComplete a = false →
  ∃ a', dispatch (NotesChange t2) a = Some a' ∧
    run [NotesChange t1; NotesChange t2] a = Some a' ∧
    notesValue a' = t2 ∧ (∀ x, isChecked a' x = isChecked a x).
Proof.
  intros Hview.
  assert (∀ t b, reviewComplete b = false →
            dispatch (NotesChange t) b = Some (updateFinding t b)) as Hd.
  { intros t b Hb. apply dispatch_edit; [|done..]. simpl. by rewrite Hb. }
  exists (updateFinding t2 a). split_and!.
  - by apply Hd.
  - simpl. rewrite Hd by done. simpl. rewrite Hd by done. f_equal.
    unfold updateFinding. simpl. rewrite lookup_insert_eq. simpl.
    by rewrite insert_insert_eq.
  - unfold notesValue, updateFinding. simpl. by rewrite lookup_insert_eq.
  - intros x. unfold isChecked, updateFinding. simpl. rewrite lookup_insert_eq.
    simpl. by destruct (findings a !! activeStep a).
Qed.

Lemma notes_last_edit_wins_witness :
  ∃ a', dispatch (NotesChange (lit " cap? ")) termFlagged = Some a' ∧
    run [NotesChange (lit " c"); NotesChange (lit " cap? ")] termFlagged = Some a' ∧
    notesValue a' = lit " cap? " ∧
    (∀ x, isChecked a' x = isChecked termFlagged x).
Proof.
  apply (notes_last_edit_wins (lit " c") (lit " cap? ") termFlagged).
  reflexivity.
Defined.

(** ** More on the report *)

Lemma trimStart_nil s : trimStart s = [] ↔ Forall (λ c, isWhiteSpace c = true) s.
Proof.
  induction s as [|c s IH]; simpl; [done|].
  destruct (isWhiteSpace c) eqn:Hc.
  - rewrite IH, Forall_cons. intuition.
  - split; [done|]. intros [? _]%Forall_cons. congruence.
Qed.

Lemma trimStart_Forall s :
  Forall (λ c, isWhiteSpace c = true) (trimStart s) ↔
  Forall (λ c, isWhiteSpace c = true) s.
Proof.
  induction s as [|c s IH]; simpl; [done|].
  destruct (isWhiteSpace c) eqn:Hc; [|done].
  rewrite IH, Forall_cons. intuition.
Qed.

Lemma trim_nil s : trim s = [] ↔ Forall (λ c, isWhiteSpace c = true) s.
Proof.
  unfold trim, trimEnd.
  rewrite <- (reverse_involutive []), (inj_iff reverse). rewrite reverse_nil.
  by rewrite trimStart_nil, Forall_reverse, trimStart_Forall.
Qed.

(** X15: a step counts as having issues in the report exactly when it has
    a checked item or its notes hold a character that is not white space;
    a step without a record never does. *)
Theorem hasIssues_iff (stepData : option FindingData) :
  hasIssues stepData = true ↔
  ∃ d, stepData = Some d ∧
       (checked d ≠ [] ∨ ∃ c, c ∈ notes d ∧ isWhiteSpace c = false).
Proof.
  destruct stepData as [d|]; simpl; [|split; [done|by intros (? & ? & _)]].
  rewrite orb_true_iff, andb_true_iff, !negb_true_iff, !bool_decide_eq_false.
  rewrite Nat.ltb_lt, trim_nil, <- Exists_Forall_neg
    by (intros c; destruct (isWhiteSpace c); eauto).
  rewrite Exists_exists.
  assert (0 < length (checked d) ↔ checked d ≠ []) as ->.
  { destruct (checked d); simpl; [split; [lia|done]|split; [done|lia]]. }
  split.
  - intros [?|[_ (c & ? & Hc)]]; exists d; (split; [done|]); [by left|right].
    exists c. split; [done|]. by destruct (isWhiteSpace c).
  - intros (? & [= <-] & [?|(c & Hin & Hc)]); [by left|right]. split.
    + intros Hn. rewrite Hn in Hin. by apply elem_of_nil in Hin.
    + exists c. split; [done|]. by rewrite Hc.
Qed.

(** X16: every step the report counts as having issues shows the sidebar
    dot; a step shows the dot without counting as having issues exactly
    when nothing is checked and its notes are not empty but all white
    space. *)
Theorem issues_imply_dot (f : gmap nat FindingData) (idx : nat) :
  (hasIssues (f !! idx) = true → hasFindingsDot f idx = true) ∧
  (hasFindingsDot f idx = true ∧ hasIssues (f !! idx) = false ↔
   ∃ d, f !! idx = Some d ∧ checked d = [] ∧ notes d ≠ [] ∧
        Forall (λ c, isWhiteSpace c = true) (notes d)).
Proof.
  unfold hasFindingsDot, hasIssues. destruct (f !! idx) as [d|]; simpl.
  - destruct (checked d) as [|x l] eqn:Hc; simpl.
    + destruct (decide (notes d = [])) as [Hn|Hn].
      * rewrite (bool_decide_eq_true_2 _ Hn). simpl. split; [done|].
        split; [by intros [? _]|]. intros (? & [= <-] & _ & ? & _). done.
      * rewrite (bool_decide_eq_false_2 _ Hn). simpl. split; [done|].
        rewrite negb_false_iff, bool_decide_eq_true, trim_nil. split.
        -- intros [_ ?]. eauto.
        -- intros (? & [= <-] & _ & _ & ?). done.
    + split; [done|]. split; [by intros [_ ?]|].
      intros (? & [= <-] & ? & _). congruence.
  - split; [done|]. split; [by intros [? _]|]. by intros (? & ? & _).
Qed.

(** X17: for a step with no checked item whose notes hold a character that
    is not white space, the report block is the title line, one "Notes:"
    line with the notes as typed (untrimmed), and the separator. *)
Theorem notes_only_block (i : nat) (step : StepDefinition) (d : FindingData) :
  checked d = [] → trim (notes d) ≠ [] →
  stepBlock i step (Some d) =
    titleLine i step ++ lit "Notes: " ++ notes d ++ nl ++ separator.
Proof.
  intros Hc Ht. unfold stepBlock, hasIssues. rewrite Hc. simpl.
  assert (notes d ≠ []) as Hn by (intros Hn; by rewrite Hn in Ht).
  rewrite (bool_decide_eq_false_2 _ Hn), (bool_decide_eq_false_2 _ Ht). simpl.
  by rewrite <- !app_assoc.
Qed.

Lemma notes_only_block_witness :
  stepBlock 3 indemnityConfidentiality
    (Some {| checked := []; notes := lit " uncapped " |}) =
    titleLine 3 indemnityConfidentiality ++
    lit "Notes: " ++ lit " uncapped " ++ nl ++ separator.
Proof.
  apply (notes_only_block 3 indemnityConfidentiality
           {| checked := []; notes := lit " uncapped " |}).
  - reflexivity.
  - by vm_compute.
Defined.

Lemma generateReport_ext date a b :
  findings a = findings b → contractName a = contractName b →
  generateReport date a = generateReport date b.
Proof. unfold generateReport. by intros -> ->. Qed.

(** X18: the report text depends on the findings, the contract name and
    the date only: timer events, navigation, the menu button, the summary
    view buttons short of a confirmed new review leave it as it is. *)
Theorem report_unchanged_by_navigation_and_timer e a a' date :
  dispatch e a = Some a' →
  match e with
  | CheckboxChange _ | NotesChange _ | ContractNameChange _
  | StartNewReview true => False
  | _ => True
  end →
  generateReport date a' = generateReport date a.
Proof.
  intros Hd He.
  assert (∃ a1, handler e a = Some a1) as [a1 Hh].
  { unfold dispatch in Hd. destruct (enabled e a); [|done].
    destruct (handler e a); [eauto|done]. }
  destruct (dispatch_preserves e a a1 a' Hh Hd) as (_ & Hf & _ & Hn).
  apply generateReport_ext; rewrite ?Hf, ?Hn.
  - destruct e as [| | | | | | | | | | | | |[]]; simplify_eq/=; try done.
    + unfold resetTimer in Hh. by destruct (steps !! activeStep a); simplify_eq/=.
    + unfold handleNext. by case_match.
    + unfold handleBack. by case_match.
  - destruct e as [| | | | | | | | | | | | |[]]; simplify_eq/=; try done.
    + unfold resetTimer in Hh. by destruct (steps !! activeStep a); simplify_eq/=.
    + unfold handleNext. by case_match.
    + unfold handleBack. by case_match.
Qed.

Lemma report_unchanged_by_navigation_and_timer_witness :
  generateReport (lit "11/2/2026") (mkApp 1 false 120 (findings termFlagged) false [] false false)
  = generateReport (lit "11/2/2026") termFlagged.
Proof.
  apply (report_unchanged_by_navigation_and_timer Next termFlagged).
  - by vm_compute.
  - exact I.
Defined.

(** X19: ticking a checkbox, typing notes or a contract name, and opening
    or closing the mobile menu never touch the timer: the step, the
    remaining time, the running flag and the interval stay as they are. *)
Theorem editing_leaves_timer e a :
  enabled e a = true →
  match e with
  | CheckboxChange _ | NotesChange _ | ContractNameChange _ | MenuButton => True
  | _ => False
  end →
  ∃ a', dispatch e a = Some a' ∧ activeStep a' = activeStep a ∧
    isTimerRunning a' = isTimerRunning a ∧ timeLeft a' = timeLeft a ∧
    interval a' = interval a ∧ reviewComplete a' = reviewComplete a.
Proof.
  intros Hen He.
  destruct e; try done; eexists; (split; [by apply dispatch_edit|done]).
Qed.

Lemma editing_leaves_timer_witness :
  ∃ a', dispatch (NotesChange (lit "No cap on liability")) lastSecond = Some a' ∧
    activeStep a' = activeStep lastSecond ∧
    isTimerRunning a' = isTimerRunning lastSecond ∧
    timeLeft a' = timeLeft lastSecond ∧
    interval a' = interval lastSecond ∧
    reviewComplete a' = reviewComplete lastSecond.
Proof.
  apply (editing_leaves_timer (NotesChange (lit "No cap on liability")) lastSecond).
  - reflexivity.
  - exact I.
Defined.
